(** * CodeHSConsole: typed-input validation, retry loop and output capture

    A shallow embedding of [src/console/console.js] (class [CodeHSConsole])
    together with the part of the host language it relies on:
    [parseInt], [parseFloat], [isNaN], [==] on Numbers,
    [String.prototype.toLowerCase], [String.prototype.split] and
    [Array.prototype.slice].

    - Strings are sequences of code units below 256 (Rocq's [ascii], read
      as the Latin-1 range of UTF-16).
    - Numbers are IEEE 754 binary64 values: [spec_float] with precision 53
      and maximal exponent 1024, rounded to nearest, ties to even.
    - A method is a function from the world it runs in to a completion
      (a returned value or a thrown error) and the world it leaves. The
      world holds the instance, and the trace of the calls made to the
      prompt gateway, to the live-display sink and to the parsing
      strategy.
    - The public methods take the list of their arguments, as they test
      [arguments.length] themselves; the arguments are strings, as
      documented. *)

From Stdlib Require Import String Ascii List ZArith NArith Lia Bool Arith.
From Stdlib Require Import Floats.SpecFloat.
From Equations Require Import Equations.
Import ListNotations.

Open Scope string_scope.
Open Scope list_scope.
Open Scope nat_scope.

(** ** The host language *)

Module JS.

(** *** Numbers *)

Definition number : Type := spec_float.

Definition prec : Z := 53.
Definition emax : Z := 1024.

Definition NaN : number := S754_nan.
Definition Infinity (neg : bool) : number := S754_infinity neg.
Definition zero (neg : bool) : number := S754_zero neg.

(** The Number value for a signed mathematical integer: rounding to the
    nearest binary64, ties to even, overflow to an infinity. A zero
    takes the sign [neg]. *)
Definition ofInteger (neg : bool) (n : N) : number :=
  binary_normalize prec emax (if neg then Z.opp (Z.of_N n) else Z.of_N n) 0 neg.

(** The Number value for the mathematical value [n * 10 ^ e]. For a
    negative [e] the quotient [n / 10 ^ -e] is rounded once, from the
    integer quotient and the position of the remainder. The value is
    taken exactly, whatever the number of significant digits (the
    language lets an implementation approximate after the 20th). *)
Definition ofDecimal (neg : bool) (n : N) (e : Z) : number :=
  match n with
  | N0 => zero neg
  | Npos p =>
      if (0 <=? e)%Z
      then ofInteger neg (n * 10 ^ Z.to_N e)
      else
        let '(q, e', l) :=
          SFdiv_core_binary prec emax (Zpos p) 0 (10 ^ (Z.opp e)) 0 in
        binary_round_aux prec emax neg q e' l
  end.

Definition is_nan (x : number) : bool :=
  match x with S754_nan => true | _ => false end.

(** [x == y] on two Numbers: false when either is NaN, zeros of either
    sign are equal. *)
Definition number_eq (x y : number) : bool := SFeqb x y.

(** *** Characters and strings *)

Definition code (c : ascii) : N := N_of_ascii c.

Definition inRange (lo hi : N) (c : ascii) : bool :=
  ((lo <=? code c) && (code c <=? hi))%N.

(** White space and line terminators among the code units below 256:
    TAB, LF, VT, FF, CR, SP and NBSP. *)
Definition isStrWhiteSpaceChar (c : ascii) : bool :=
  (inRange 9 13 c || (code c =? 32) || (code c =? 160))%N.

Fixpoint trimStart (s : string) : string :=
  match s with
  | String c r => if isStrWhiteSpaceChar c then trimStart r else s
  | EmptyString => s
  end.

(** The value of a digit in radix-36 notation: 0-9, then a-z or A-Z. *)
Definition digitValue (c : ascii) : option N :=
  if inRange 48 57 c then Some (code c - 48)%N
  else if inRange 97 122 c then Some (code c - 87)%N
  else if inRange 65 90 c then Some (code c - 55)%N
  else None.

Definition radixDigit (R : N) (c : ascii) : option N :=
  match digitValue c with
  | Some d => if (d <? R)%N then Some d else None
  | None => None
  end.

(** The longest prefix of radix-[R] digits (as digit values) and the rest. *)
Fixpoint spanDigits (R : N) (s : string) : list N * string :=
  match s with
  | String c r =>
      match radixDigit R c with
      | Some d => let '(ds, rest) := spanDigits R r in (d :: ds, rest)
      | None => ([], s)
      end
  | EmptyString => ([], s)
  end.

Definition digitsValue (R : N) (ds : list N) : N :=
  fold_left (fun acc d => acc * R + d)%N ds 0%N.

(** A leading sign: whether it is a minus, and the rest. *)
Definition stripSign (s : string) : bool * string :=
  match s with
  | String c r =>
      if Ascii.eqb c "-" then (true, r)
      else if Ascii.eqb c "+" then (false, r)
      else (false, s)
  | EmptyString => (false, s)
  end.

(** The radix [parseInt] settles on when it is given none, and the rest:
    16 after a prefix [0x] or [0X], which is removed, and 10 otherwise. *)
Definition stripPrefix (s : string) : N * string :=
  match s with
  | String c0 (String c1 r) =>
      if Ascii.eqb c0 "0" && (Ascii.eqb c1 "x" || Ascii.eqb c1 "X")
      then (16%N, r)
      else (10%N, s)
  | _ => (10%N, s)
  end.

(** [parseInt(string)] with no radix argument: leading white space is
    skipped, a sign is read, a [0x] or [0X] prefix selects radix 16,
    otherwise the radix is 10; the longest prefix of digits is the
    result and what follows is ignored; no digit at all gives NaN. *)
Definition parseInt (inputString : string) : number :=
  let '(neg, S1) := stripSign (trimStart inputString) in
  let '(R, S2) := stripPrefix S1 in
  match spanDigits R S2 with
  | ([], _) => NaN
  | (ds, _) => ofInteger neg (digitsValue R ds)
  end.

Fixpoint isPrefixOf (p s : string) : bool :=
  match p, s with
  | EmptyString, _ => true
  | String a p', String b s' => Ascii.eqb a b && isPrefixOf p' s'
  | String _ _, EmptyString => false
  end.

(** The digits after a decimal point, when there is a point, and the
    rest. *)
Definition fractionPart (s : string) : list N * string :=
  match s with
  | String c r => if Ascii.eqb c "." then spanDigits 10 r else ([], s)
  | EmptyString => ([], s)
  end.

(** The exponent part [e], [E] followed by an optionally signed,
    non-empty run of digits; anything else is no exponent part. *)
Definition exponentPart (s : string) : Z :=
  match s with
  | String c r =>
      if Ascii.eqb c "e" || Ascii.eqb c "E" then
        let '(eneg, r') := stripSign r in
        match spanDigits 10 r' with
        | ([], _) => 0%Z
        | (ds, _) =>
            let v := Z.of_N (digitsValue 10 ds) in
            if eneg then Z.opp v else v
        end
      else 0%Z
  | EmptyString => 0%Z
  end.

(** [parseFloat(string)]: leading white space is skipped; the longest
    prefix that is a StrDecimalLiteral (sign, then [Infinity], or digits
    with an optional fraction and exponent, or a fraction with an
    optional exponent) is the result and what follows is ignored; no
    such prefix gives NaN. *)
Definition parseFloat (inputString : string) : number :=
  let '(neg, S1) := stripSign (trimStart inputString) in
  if isPrefixOf "Infinity" S1 then Infinity neg
  else
    let '(ip, r1) := spanDigits 10 S1 in
    let '(fp, r2) := fractionPart r1 in
    match ip, fp with
    | [], [] => NaN
    | _, _ =>
        ofDecimal neg (digitsValue 10 (ip ++ fp))
                  (exponentPart r2 - Z.of_nat (length fp))
    end.

(** [toLowerCase] on code units below 256: A-Z and the Latin-1 capitals
    (all of 192-222 but the multiplication sign 215) move up by 32. *)
Definition toLowerChar (c : ascii) : ascii :=
  if inRange 65 90 c || (inRange 192 222 c && negb (code c =? 215)%N)
  then ascii_of_N (code c + 32)
  else c.

Fixpoint toLowerCase (s : string) : string :=
  match s with
  | String c r => String (toLowerChar c) (toLowerCase r)
  | EmptyString => EmptyString
  end.

(** [s.split(sep)] for a one-character separator: never empty. *)
Fixpoint split (sep : ascii) (s : string) : list string :=
  match s with
  | EmptyString => [EmptyString]
  | String c r =>
      if Ascii.eqb c sep then EmptyString :: split sep r
      else
        match split sep r with
        | h :: t => String c h :: t
        | [] => [String c EmptyString]
        end
  end.

(** [arr.slice(0, -1)]: all but the last element. *)
Definition slice_0_m1 {A : Type} (arr : list A) : list A := removelast arr.

End JS.

(** ** Values, completions and the world *)

(** The results a typed read hands back: [null], a boolean or a Number. *)
Inductive value : Type :=
| VNull
| VBool (b : bool)
| VNumber (n : JS.number).

(** The global [isNaN]: its argument is converted to a Number first, so
    [null] (0), [true] (1) and [false] (0) are not NaN. *)
Definition isNaN (v : value) : bool :=
  match v with
  | VNumber n => JS.is_nan n
  | VNull | VBool _ => false
  end.

(** [v === null]. *)
Definition isNull (v : value) : bool :=
  match v with VNull => true | _ => false end.

(** [ToString] of what the prompt gateway returned: a string, or [null]. *)
Definition toString (x : option string) : string :=
  match x with Some s => s | None => "null" end.

Inductive exn : Type :=
| Error (message : string)
| ReferenceError (message : string)
| TypeError (message : string).

Inductive completion (A : Type) : Type :=
| Return (a : A)
| Throw (e : exn).
Arguments Return {A} a.
Arguments Throw {A} e.

(** What the console does to its collaborators, in order: a request to
    the prompt gateway with its response ([None] is the cancellation
    marker [null]), a line handed to the live-display sink, and an
    application of a parsing strategy to its argument. *)
Inductive event : Type :=
| Prompted (promptString : string) (response : option string)
| Printed (ln : string)
| Parsed (line : option string).

(** The prompt gateway, [this.promptHandler]: a host function that may
    keep state of its own, so its response is a function of everything
    that happened before and of the prompt text. *)
Definition Gateway : Type := list event -> string -> option string.

(** The fields of a [CodeHSConsole] instance. The live-display sink
    [this.printHandler] only consumes its argument: it is represented by
    the [Printed] events. *)
Record CodeHSConsole : Type := mkConsole {
  internalOutput : list string;
  internalOutputBuffer : string;
  promptHandler : Gateway
}.

(** The world a method runs in: the instance [this], the function the
    free identifier [bufferedOutputToArray] of [flushQuietOutput]
    (line 72) resolves to in the enclosing scopes, if any, and the trace
    of events so far. The module declares no such identifier: the class
    only has a method of that name, reached as
    [this.bufferedOutputToArray]. *)
Record World : Type := mkWorld {
  this : CodeHSConsole;
  scope_bufferedOutputToArray : option (string -> completion (list string));
  trace : list event
}.

Definition M (A : Type) : Type := World -> completion A * World.

Definition ret {A} (a : A) : M A := fun w => (Return a, w).
Definition throw {A} (e : exn) : M A := fun w => (Throw e, w).
Definition bind {A B} (m : M A) (k : A -> M B) : M B :=
  fun w =>
    match m w with
    | (Return a, w') => k a w'
    | (Throw e, w') => (Throw e, w')
    end.

Notation "x <- m ;; k" := (bind m (fun x => k))
  (at level 61, m at next level, right associativity).
Notation "m ;;; k" := (bind m (fun _ => k))
  (at level 61, right associativity).

Definition emit (ev : event) : M unit :=
  fun w => (Return tt, mkWorld (this w) (scope_bufferedOutputToArray w) (trace w ++ [ev])).

Definition getThis : M CodeHSConsole := fun w => (Return (this w), w).

Definition setThis (c : CodeHSConsole) : M unit :=
  fun w => (Return tt, mkWorld c (scope_bufferedOutputToArray w) (trace w)).

Definition set_internalOutput (l : list string) : M unit :=
  c <- getThis ;; setThis (mkConsole l (internalOutputBuffer c) (promptHandler c)).

Definition set_internalOutputBuffer (b : string) : M unit :=
  c <- getThis ;; setThis (mkConsole (internalOutput c) b (promptHandler c)).

Definition nl : ascii := ascii_of_nat 10.
Definition newline : string := String nl EmptyString.

(** ** The console (console.js) *)

(** [constructor()], lines 17-23, with the gateway the host provides. *)
Definition constructor (hostPrompt : Gateway) : CodeHSConsole :=
  mkConsole [] "" hostPrompt.

(** [configure(options)], lines 31-34, for the [prompt] option. *)
Definition configure (options_prompt : option Gateway) : M unit :=
  c <- getThis ;;
  setThis (mkConsole (internalOutput c) (internalOutputBuffer c)
             (match options_prompt with Some g => g | None => promptHandler c end)).

(** [bufferedOutputToArray(bufferedOutput)], lines 36-43. Reading the
    [length] of a missing last element would be a TypeError. *)
Definition bufferedOutputToArray (bufferedOutput : string)
  : completion (list string) :=
  let bufferedOutputArray := JS.split nl bufferedOutput in
  match nth_error bufferedOutputArray (length bufferedOutputArray - 1) with
  | None => Throw (TypeError "Cannot read properties of undefined (reading 'length')")
  | Some final =>
      if String.length final =? 0
      then Return (JS.slice_0_m1 bufferedOutputArray)
      else Return bufferedOutputArray
  end.

(** [!s] for a string: true for the empty string only. *)
Definition falsy (s : string) : bool := String.eqb s "".

(** [quietPrint(string)], lines 48-53. *)
Definition quietPrint (string : string) : M unit :=
  c <- getThis ;;
  (if falsy (internalOutputBuffer c) then set_internalOutputBuffer "" else ret tt) ;;;
  c <- getThis ;;
  set_internalOutputBuffer (internalOutputBuffer c ++ string)%string.

(** [quietPrintln(anything)], lines 58-60. *)
Definition quietPrintln (anything : string) : M unit :=
  quietPrint (anything ++ newline)%string.

(** [flushQuietOutput()], lines 65-76. An array is never falsy, so the
    guard of lines 69-71 does nothing. The call of line 72 names
    [bufferedOutputToArray] without [this.]: it is looked up in the
    scope, and is a ReferenceError when nothing is bound there. *)
Definition flushQuietOutput : M (list string) :=
  c <- getThis ;;
  (if falsy (internalOutputBuffer c) then set_internalOutputBuffer "" else ret tt) ;;;
  c <- getThis ;;
  fun w =>
    match scope_bufferedOutputToArray w with
    | None => (Throw (ReferenceError "bufferedOutputToArray is not defined"), w)
    | Some f =>
        match f (internalOutputBuffer c) with
        | Throw e => (Throw e, w)
        | Return lines =>
            (let output := internalOutput c ++ lines in
             set_internalOutput [] ;;;
             set_internalOutputBuffer "" ;;;
             ret output) w
        end
    end.

(** [readLinePrivate(promptString)], lines 82-84: one request to the
    gateway. A second argument, when one is passed, is ignored. *)
Definition readLinePrivate (promptString : string) (_ignored : bool)
  : M (option string) :=
  fun w =>
    let response := promptHandler (this w) (trace w) promptString in
    (emit (Prompted promptString response) ;;; ret response) w.

(** [clear()], lines 91-94. *)
Definition clear : M unit :=
  set_internalOutput [] ;;; set_internalOutputBuffer "".

(** [print(ln)], lines 100-106; [args] is the [arguments] object. *)
Definition print (args : list string) : M unit :=
  match args with
  | [ln] =>
      c <- getThis ;;
      set_internalOutput (internalOutput c ++ [ln]) ;;;
      emit (Printed ln)
  | _ => throw (Error "You should pass exactly 1 argument to print")
  end.

(** [println(ln)], lines 112-120. With no argument [ln] is set to the
    empty string and the method returns: the call of [print] is in the
    last branch only. *)
Definition println (args : list string) : M unit :=
  match args with
  | [] => let ln := "" in ret tt
  | [ln] => print [(ln ++ newline)%string]
  | _ => throw (Error "You should pass exactly 1 argument to println")
  end.

(** A parsing strategy takes what the gateway returned ([None] being
    [null]) to a value; NaN is the invalid marker. *)
Definition ParseFn : Type := option string -> value.

(** The application [parseFn(result)] of line 147. *)
Definition applyParseFn (parseFn : ParseFn) (result : option string) : M value :=
  emit (Parsed result) ;;; ret (parseFn result).

Definition DEFAULT : value := VNumber (JS.zero false).
Definition INFINITE_LOOP_CHECK : nat := 100.

Definition retryPrompt (errorMsgType str : string) : string :=
  ("That was not " ++ errorMsgType ++ ". Please try again. " ++ str)%string.

(** How far [loopCount] is from the value at which the loop gives up. *)
Definition attemptsLeft (loopCount : nat) : nat :=
  S INFINITE_LOOP_CHECK - loopCount.
Arguments attemptsLeft : simpl never.

(** The [while (true)] loop of [readNumber], lines 142-163, from the
    state its variables [prompt], [looping] and [loopCount] are in. An
    iteration that does not return has found [loopCount] at most
    [INFINITE_LOOP_CHECK], and increments it. *)
Equations? readNumber_loop (str : string) (parseFn : ParseFn) (errorMsgType : string)
    (prompt : string) (looping : bool) (loopCount : nat) (w : World)
  : completion value * World by wf (attemptsLeft loopCount) lt :=
  readNumber_loop str parseFn errorMsgType prompt looping loopCount w
    with readLinePrivate prompt (negb looping) w => {
    | (Throw e, w1) := (Throw e, w1);
    | (Return None, w1) := (Return VNull, w1);
    | (Return (Some line), w1) with applyParseFn parseFn (Some line) w1 => {
      | (Throw e, w2) := (Throw e, w2);
      | (Return result, w2) with isNaN result => {
        | false := (Return result, w2);
        | true with isNull result => {
          | true := (Return DEFAULT, w2);
          | false with lt_dec INFINITE_LOOP_CHECK loopCount => {
            | left _ := (Return DEFAULT, w2);
            | right _ :=
                readNumber_loop str parseFn errorMsgType
                  (retryPrompt errorMsgType str) true (S loopCount) w2 } } } } }.
Proof. unfold attemptsLeft, INFINITE_LOOP_CHECK in *. lia. Qed.

(** [readNumber(str, parseFn, errorMsgType)], lines 134-164. *)
Definition readNumber (str : string) (parseFn : ParseFn) (errorMsgType : string)
  : M value :=
  readNumber_loop str parseFn errorMsgType str false 0.

(** [readLine(str)], lines 171-177. *)
Definition readLine (args : list string) : M (option string) :=
  match args with
  | [str] => readLinePrivate str false
  | _ => throw (Error "You should pass exactly 1 argument to readLine")
  end.

(** The parsing strategy of [readBoolean], lines 190-202. *)
Definition booleanStrategy : ParseFn :=
  fun line =>
    match line with
    | None => VNumber JS.NaN
    | Some line =>
        let line := JS.toLowerCase line in
        if String.eqb line "true" || String.eqb line "yes" then VBool true
        else if String.eqb line "false" || String.eqb line "no" then VBool false
        else VNumber JS.NaN
    end.

(** [readBoolean(str)], lines 184-205. *)
Definition readBoolean (args : list string) : M value :=
  match args with
  | [str] => readNumber str booleanStrategy "a boolean (true/false)"
  | _ => throw (Error "You should pass exactly 1 argument to readBoolean")
  end.

(** The parsing strategy of [readInt], lines 220-228. *)
Definition integerStrategy : ParseFn :=
  fun x =>
    let resultInt := JS.parseInt (toString x) in
    let resultFloat := JS.parseFloat (toString x) in
    if JS.number_eq resultInt resultFloat then VNumber resultInt
    else VNumber JS.NaN.

(** [readInt(str)], lines 213-231. *)
Definition readInt (args : list string) : M value :=
  match args with
  | [str] => readNumber str integerStrategy "an integer"
  | _ => throw (Error "You should pass exactly 1 argument to readInt")
  end.

(** The parsing strategy of [readFloat]: [parseFloat] itself, line 243. *)
Definition floatStrategy : ParseFn :=
  fun x => VNumber (JS.parseFloat (toString x)).

(** [readFloat(str)], lines 238-244. *)
Definition readFloat (args : list string) : M value :=
  match args with
  | [str] => readNumber str floatStrategy "a float"
  | _ => throw (Error "You should pass exactly 1 argument to readFloat")
  end.


(** ** The vocabulary of the statements *)

(** The world after one more event. *)
Definition logged (ev : event) (w : World) : World :=
  mkWorld (this w) (scope_bufferedOutputToArray w) (trace w ++ [ev]).

(** The world with the given captured lines and pending fragment. *)
Definition withOutput (w : World) (lines : list string) (buffer : string) : World :=
  mkWorld (mkConsole lines buffer (promptHandler (this w)))
          (scope_bufferedOutputToArray w) (trace w).

(** The number of requests made to the prompt gateway in a trace. *)
Fixpoint gatewayCalls (evs : list event) : nat :=
  match evs with
  | [] => 0
  | Prompted _ _ :: rest => S (gatewayCalls rest)
  | _ :: rest => gatewayCalls rest
  end.

(** The number of applications of a parsing strategy in a trace. *)
Fixpoint strategyCalls (evs : list event) : nat :=
  match evs with
  | [] => 0
  | Parsed _ :: rest => S (strategyCalls rest)
  | _ :: rest => strategyCalls rest
  end.

(** Every application of a parsing strategy is to a string, the very
    one the gateway returned in the event just before. [prev] is the
    event before [evs], if any. *)
Fixpoint parsedAfterPrompt (prev : option event) (evs : list event) : Prop :=
  match evs with
  | [] => True
  | Parsed x :: rest =>
      (exists p s, prev = Some (Prompted p (Some s)) /\ x = Some s)
      /\ parsedAfterPrompt (Some (Parsed x)) rest
  | ev :: rest => parsedAfterPrompt (Some ev) rest
  end.

(** A gateway whose every response is a string the strategy rejects. *)
Definition alwaysInvalid (parseFn : ParseFn) (g : Gateway) : Prop :=
  forall history promptString,
    exists s, g history promptString = Some s /\ isNaN (parseFn (Some s)) = true.

(** The runs of the loop of [readNumber] from [prompt] and [loopCount]:
    the states PROMPTING and PARSING of one iteration lead to CANCELLED,
    ACCEPTED, EXHAUSTED, or through RETRY to the next iteration. *)
Inductive LoopRun (str : string) (parseFn : ParseFn) (errorMsgType : string)
  : string -> nat -> World -> completion value * World -> Prop :=
| run_cancelled prompt loopCount w :
    promptHandler (this w) (trace w) prompt = None ->
    LoopRun str parseFn errorMsgType prompt loopCount w
      (Return VNull, logged (Prompted prompt None) w)
| run_accepted prompt loopCount w line :
    promptHandler (this w) (trace w) prompt = Some line ->
    isNaN (parseFn (Some line)) = false ->
    LoopRun str parseFn errorMsgType prompt loopCount w
      (Return (parseFn (Some line)),
       logged (Parsed (Some line)) (logged (Prompted prompt (Some line)) w))
| run_exhausted prompt loopCount w line :
    promptHandler (this w) (trace w) prompt = Some line ->
    isNaN (parseFn (Some line)) = true ->
    INFINITE_LOOP_CHECK < loopCount ->
    LoopRun str parseFn errorMsgType prompt loopCount w
      (Return DEFAULT,
       logged (Parsed (Some line)) (logged (Prompted prompt (Some line)) w))
| run_retry prompt loopCount w line out :
    promptHandler (this w) (trace w) prompt = Some line ->
    isNaN (parseFn (Some line)) = true ->
    loopCount <= INFINITE_LOOP_CHECK ->
    LoopRun str parseFn errorMsgType (retryPrompt errorMsgType str) (S loopCount)
      (logged (Parsed (Some line)) (logged (Prompted prompt (Some line)) w)) out ->
    LoopRun str parseFn errorMsgType prompt loopCount w out.

(** The three typed reads of the public surface. *)
Definition typedReads : list (list string -> M value) :=
  [readBoolean; readInt; readFloat].

(** Worlds used as concrete inputs: a fresh console over a gateway that
    gives the same response to every request. *)
Definition cannedWorld (response : option string) : World :=
  mkWorld (constructor (fun _ _ => response)) None [].

(** A fresh console in a scope where the identifier of line 72 resolves
    to the method of the same name, and one in the scope of the module
    alone, where it resolves to nothing. *)
Definition resolvedWorld : World :=
  mkWorld (constructor (fun _ _ => None)) (Some bufferedOutputToArray) [].

Definition moduleWorld : World :=
  mkWorld (constructor (fun _ _ => None)) None [].

Definition a_nl_b_nl : string := ("a" ++ newline ++ "b" ++ newline)%string.
Definition a_nl_b : string := ("a" ++ newline ++ "b")%string.

(** The Number for the mathematical integer [n], positive sign. *)
Definition int (n : N) : JS.number := JS.ofInteger false n.

(** "Any casing" of a word written in lower-case letters a-z: the same
    letters in the same order, each one in lower or in upper case. *)
Definition upperCaseOf (c : ascii) : ascii := ascii_of_N (JS.code c - 32).

Fixpoint isCasingOf (word s : string) : bool :=
  match word, s with
  | EmptyString, EmptyString => true
  | String a word', String b s' =>
      (Ascii.eqb b a || Ascii.eqb b (upperCaseOf a)) && isCasingOf word' s'
  | _, _ => false
  end.

Fixpoint lowerCaseLetters (word : string) : bool :=
  match word with
  | EmptyString => true
  | String a word' => JS.inRange 97 122 a && lowerCaseLetters word'
  end.

Definition isDecimalDigit (c : ascii) : bool := JS.inRange 48 57 c.

Fixpoint allDecimalDigits (s : string) : bool :=
  match s with
  | EmptyString => true
  | String c r => isDecimalDigit c && allDecimalDigits r
  end.

(** A decimal numeral: one decimal digit or more, and nothing else. *)
Definition isDecimalNumeral (ds : string) : bool :=
  match ds with
  | EmptyString => false
  | String _ _ => allDecimalDigits ds
  end.

(** The integer a decimal numeral denotes. *)
Definition decimalValue (ds : string) : N :=
  fold_left (fun acc c => acc * 10 + (JS.code c - 48))%N
            (list_ascii_of_string ds) 0%N.

(** Text that, right after a decimal numeral, could still belong to a
    numeral: it starts with a digit, a decimal point, an exponent
    indicator, or the [x] of a hexadecimal prefix. *)
Definition continuesNumeral (t : string) : bool :=
  match t with
  | String c _ =>
      isDecimalDigit c || Ascii.eqb c "." || Ascii.eqb c "e" || Ascii.eqb c "E"
      || Ascii.eqb c "x" || Ascii.eqb c "X"
  | EmptyString => false
  end.

(** ** The vocabulary of the further properties *)

(** [s] has no occurrence of the code unit [c]. *)
Fixpoint lacks (c : ascii) (s : string) : bool :=
  match s with
  | EmptyString => true
  | String d r => negb (Ascii.eqb d c) && lacks c r
  end.

(** The last code unit of [s] is [c]. *)
Fixpoint endsWith (c : ascii) (s : string) : bool :=
  match s with
  | EmptyString => false
  | String d EmptyString => Ascii.eqb d c
  | String _ r => endsWith c r
  end.

(** The calls that write output, each with its one argument. *)
Inductive outputCall : Type :=
| CallPrint (ln : string)
| CallPrintln (ln : string)
| CallQuietPrint (text : string)
| CallQuietPrintln (anything : string).

Definition call (c : outputCall) : M unit :=
  match c with
  | CallPrint ln => print [ln]
  | CallPrintln ln => println [ln]
  | CallQuietPrint text => quietPrint text
  | CallQuietPrintln anything => quietPrintln anything
  end.

(** A sequence of calls, one after the other. *)
Fixpoint callAll (cs : list outputCall) : M unit :=
  match cs with
  | [] => ret tt
  | c :: rest => call c ;;; callAll rest
  end.

(** What a call hands to the sink, and what it adds to the fragment. *)
Definition printedBy (c : outputCall) : list string :=
  match c with
  | CallPrint ln => [ln]
  | CallPrintln ln => [(ln ++ newline)%string]
  | CallQuietPrint _ | CallQuietPrintln _ => []
  end.

Definition bufferedBy (c : outputCall) : string :=
  match c with
  | CallPrint _ | CallPrintln _ => ""
  | CallQuietPrint text => text
  | CallQuietPrintln anything => (anything ++ newline)%string
  end.

(** The typed reads, each with its parsing strategy and the domain label
    of its error notice. *)
Definition typedReadsWith : list ((list string -> M value) * ParseFn * string) :=
  [(readBoolean, booleanStrategy, "a boolean (true/false)");
   (readInt, integerStrategy, "an integer");
   (readFloat, floatStrategy, "a float")].

(** A trace made of rounds only: a request answered by a string, then
    the strategy applied to that string and rejecting it. *)
Fixpoint invalidRounds (parseFn : ParseFn) (evs : list event) : Prop :=
  match evs with
  | [] => True
  | Prompted _ (Some s) :: Parsed (Some s') :: rest =>
      s = s' /\ isNaN (parseFn (Some s)) = true /\ invalidRounds parseFn rest
  | _ => False
  end.

(** The prompt texts of the requests of a trace, in order. *)
Fixpoint prompts (evs : list event) : list string :=
  match evs with
  | [] => []
  | Prompted p _ :: rest => p :: prompts rest
  | _ :: rest => prompts rest
  end.

(** A string of white space only, the empty string included. *)
Fixpoint allWhiteSpace (s : string) : bool :=
  match s with
  | EmptyString => true
  | String c r => JS.isStrWhiteSpaceChar c && allWhiteSpace r
  end.

(** A sign, or none. *)
Definition isSign (sg : string) : bool :=
  String.eqb sg "" || String.eqb sg "+" || String.eqb sg "-".

(** [s] holds a white space character somewhere. *)
Fixpoint hasWhiteSpace (s : string) : bool :=
  match s with
  | EmptyString => false
  | String c r => JS.isStrWhiteSpaceChar c || hasWhiteSpace r
  end.

(** * Properties of the model *)

(** Some values of the two parsers, as the host computes them. *)
Example parseFloat_tenth :
  JS.parseFloat "0.1" = S754_finite false 7205759403792794 (-56).
Proof. reflexivity. Qed.

Example parseFloat_ties_to_even :
  JS.parseFloat "9007199254740993" = S754_finite false 4503599627370496 1
  /\ JS.parseFloat "9007199254740992.5" = JS.parseInt "9007199254740993".
Proof. split; reflexivity. Qed.

Example parseFloat_range :
  JS.parseFloat "1.7976931348623157e308" = S754_finite false 9007199254740991 971
  /\ JS.parseFloat "1.7976931348623159e308" = JS.Infinity false
  /\ JS.parseFloat "5e-324" = S754_finite false 1 (-1074)
  /\ JS.parseFloat "2e-324" = JS.zero false
  /\ JS.parseFloat "-Infinity" = JS.Infinity true.
Proof. repeat split; reflexivity. Qed.

Example parseFloat_prefixes :
  JS.parseFloat "-.5e-3x" = JS.parseFloat "-0.0005"
  /\ JS.parseFloat "1.e2" = JS.parseFloat "100"
  /\ JS.parseFloat "1e" = JS.parseFloat "1"
  /\ JS.parseFloat "1e+" = JS.parseFloat "1"
  /\ JS.parseFloat "  -0" = JS.zero true
  /\ JS.parseFloat "." = JS.NaN
  /\ JS.parseFloat "abc" = JS.NaN
  /\ JS.parseFloat "" = JS.NaN.
Proof. repeat split; reflexivity. Qed.

Example parseInt_values :
  JS.parseInt "0x1F" = JS.parseInt "31"
  /\ JS.parseInt "  -12px" = JS.parseInt "-12"
  /\ JS.parseInt "3.5" = JS.parseInt "3"
  /\ JS.parseInt "1e3" = JS.parseInt "1"
  /\ JS.parseInt "-0" = JS.zero true
  /\ JS.parseInt "0x" = JS.NaN
  /\ JS.parseInt "abc" = JS.NaN
  /\ JS.parseInt "" = JS.NaN.
Proof. repeat split; reflexivity. Qed.

(** ** Reasoning about the model *)

(** One iteration of the loop, as the source reads. *)
Lemma readNumber_loop_step str parseFn errorMsgType prompt looping loopCount w :
  readNumber_loop str parseFn errorMsgType prompt looping loopCount w =
  let response := promptHandler (this w) (trace w) prompt in
  let w1 := logged (Prompted prompt response) w in
  match response with
  | None => (Return VNull, w1)
  | Some line =>
      let result := parseFn (Some line) in
      let w2 := logged (Parsed (Some line)) w1 in
      if negb (isNaN result) then (Return result, w2)
      else if isNull result then (Return DEFAULT, w2)
      else if INFINITE_LOOP_CHECK <? loopCount then (Return DEFAULT, w2)
      else readNumber_loop str parseFn errorMsgType
             (retryPrompt errorMsgType str) true (S loopCount) w2
  end.
Proof.
  pose proof (Nat.ltb_spec0 INFINITE_LOOP_CHECK loopCount) as Hb.
  set (b := INFINITE_LOOP_CHECK <? loopCount) in *. clearbody b.
  simp readNumber_loop.
  unfold readLinePrivate, bind, emit, ret, logged. cbn.
  destruct (promptHandler (this w) (trace w) prompt) as [line|]; [|reflexivity].
  cbn. destruct (isNaN (parseFn (Some line))); cbn; [|reflexivity].
  destruct (isNull (parseFn (Some line))); cbn; [reflexivity|].
  destruct (lt_dec INFINITE_LOOP_CHECK loopCount) as [Hlt|Hge].
  - destruct Hb; [reflexivity | contradiction].
  - destruct Hb; [contradiction | reflexivity].
Qed.

Lemma gatewayCalls_app evs1 evs2 :
  gatewayCalls (evs1 ++ evs2) = gatewayCalls evs1 + gatewayCalls evs2.
Proof.
  induction evs1 as [|[p r|ln|x] evs1 IH]; simpl; auto.
Qed.

Lemma strategyCalls_app evs1 evs2 :
  strategyCalls (evs1 ++ evs2) = strategyCalls evs1 + strategyCalls evs2.
Proof.
  induction evs1 as [|[p r|ln|x] evs1 IH]; simpl; auto.
Qed.

Lemma isNaN_not_null v : isNaN v = true -> isNull v = false.
Proof. destruct v; simpl; congruence. Qed.

Section RetryLoop.

Variables (str : string) (parseFn : ParseFn) (errorMsgType : string).

Local Abbreviation Run := (LoopRun str parseFn errorMsgType).

(** The loop is total, and what it computes is a run. *)
Lemma readNumber_loop_run :
  forall k loopCount, attemptsLeft loopCount <= k ->
  forall prompt looping w,
    Run prompt loopCount w
      (readNumber_loop str parseFn errorMsgType prompt looping loopCount w).
Proof.
  induction k as [|k IH]; intros loopCount Hk prompt looping w;
    rewrite readNumber_loop_step; cbv zeta;
    destruct (promptHandler (this w) (trace w) prompt) as [line|] eqn:Hg;
    try (apply run_cancelled; assumption);
    destruct (isNaN (parseFn (Some line))) eqn:Hnan; simpl negb; cbv iota;
    try (apply run_accepted; assumption);
    rewrite (isNaN_not_null _ Hnan);
    destruct (Nat.ltb_spec INFINITE_LOOP_CHECK loopCount) as [Hlt|Hle];
    try (apply run_exhausted; assumption).
  - unfold attemptsLeft, INFINITE_LOOP_CHECK in *. lia.
  - apply run_retry with (line := line); try assumption.
    apply IH. unfold attemptsLeft, INFINITE_LOOP_CHECK in *. lia.
Qed.

Lemma readNumber_run w :
  Run str 0 w (readNumber str parseFn errorMsgType w).
Proof.
  unfold readNumber. apply (readNumber_loop_run (attemptsLeft 0)). apply le_n.
Qed.

(** A run changes neither the instance nor the scope, and only adds
    events to the trace: between one and [S (attemptsLeft loopCount)]
    requests to the gateway, and no application of the strategy that is
    not to the string just obtained. *)
Lemma LoopRun_frame prompt loopCount w out :
  Run prompt loopCount w out ->
  this (snd out) = this w
  /\ scope_bufferedOutputToArray (snd out) = scope_bufferedOutputToArray w
  /\ exists evs,
       trace (snd out) = trace w ++ evs
       /\ parsedAfterPrompt None evs
       /\ 1 <= gatewayCalls evs <= S (attemptsLeft loopCount)
       /\ strategyCalls evs <= gatewayCalls evs.
Proof.
  induction 1 as [prompt n w Hg | prompt n w line Hg Hnan
                 | prompt n w line Hg Hnan Hlt
                 | prompt n w line out Hg Hnan Hle Hrun IH]; simpl.
  - repeat split; trivial. exists [Prompted prompt None]. simpl.
    repeat split; trivial; lia.
  - repeat split; trivial.
    exists [Prompted prompt (Some line); Parsed (Some line)].
    rewrite <- app_assoc. simpl. repeat split; eauto; lia.
  - repeat split; trivial.
    exists [Prompted prompt (Some line); Parsed (Some line)].
    rewrite <- app_assoc. simpl. repeat split; eauto; lia.
  - destruct IH as (Hthis & Hscope & evs & Htr & Hseq & Hcalls & Hpar).
    simpl in Hthis, Hscope, Htr. repeat split; trivial.
    exists (Prompted prompt (Some line) :: Parsed (Some line) :: evs).
    rewrite Htr, <- !app_assoc. simpl.
    assert (Hrest : parsedAfterPrompt (Some (Parsed (Some line))) evs).
    { clear -Hseq. destruct evs as [|[p r|ln|x] evs]; simpl in *; trivial.
      destruct Hseq as [(p & s & Hp & _) _]. discriminate. }
    unfold attemptsLeft, INFINITE_LOOP_CHECK in *.
    repeat split; eauto; lia.
Qed.

(** Against a gateway that only gives rejected strings, a run from
    [loopCount] ends with the default after one request for each value
    of the counter from [loopCount] to [INFINITE_LOOP_CHECK + 1]. *)
Lemma LoopRun_exhausts prompt loopCount w out :
  Run prompt loopCount w out ->
  alwaysInvalid parseFn (promptHandler (this w)) ->
  loopCount <= S INFINITE_LOOP_CHECK ->
  fst out = Return DEFAULT
  /\ gatewayCalls (trace (snd out)) =
     gatewayCalls (trace w) + S (attemptsLeft loopCount)
  /\ strategyCalls (trace (snd out)) =
     strategyCalls (trace w) + S (attemptsLeft loopCount).
Proof.
  induction 1 as [prompt n w Hg | prompt n w line Hg Hnan
                 | prompt n w line Hg Hnan Hlt
                 | prompt n w line out Hg Hnan Hle Hrun IH];
    intros Hinv Hn; simpl.
  - destruct (Hinv (trace w) prompt) as (s & Hs & _). congruence.
  - destruct (Hinv (trace w) prompt) as (s & Hs & Hbad). congruence.
  - rewrite <- !app_assoc, gatewayCalls_app, strategyCalls_app. simpl.
    unfold attemptsLeft, INFINITE_LOOP_CHECK in *. repeat split; trivial; lia.
  - destruct (IH Hinv) as (Hres & Hcalls & Hpar).
    { unfold INFINITE_LOOP_CHECK in *. lia. }
    simpl in Hcalls, Hpar.
    rewrite <- !app_assoc, gatewayCalls_app in Hcalls.
    rewrite <- !app_assoc, strategyCalls_app in Hpar.
    simpl in Hcalls, Hpar.
    unfold attemptsLeft, INFINITE_LOOP_CHECK in *. repeat split; trivial; lia.
Qed.

End RetryLoop.

(** The loop never looks at what the strategy does on [null]. *)
Lemma readNumber_loop_ext str (f g : ParseFn) errorMsgType :
  (forall s, f (Some s) = g (Some s)) ->
  forall k loopCount, attemptsLeft loopCount <= k ->
  forall prompt looping w,
    readNumber_loop str f errorMsgType prompt looping loopCount w =
    readNumber_loop str g errorMsgType prompt looping loopCount w.
Proof.
  intros Hfg.
  induction k as [|k IH]; intros loopCount Hk prompt looping w;
    rewrite !readNumber_loop_step; cbv zeta;
    destruct (promptHandler (this w) (trace w) prompt) as [line|]; trivial;
    rewrite Hfg;
    destruct (isNaN (g (Some line))), (isNull (g (Some line))); simpl; trivial;
    destruct (Nat.ltb_spec INFINITE_LOOP_CHECK loopCount) as [Hlt|Hle]; trivial.
  - unfold attemptsLeft, INFINITE_LOOP_CHECK in *. lia.
  - apply IH. unfold attemptsLeft, INFINITE_LOOP_CHECK in *. lia.
Qed.

Lemma parsedAfterPrompt_no_null evs :
  forall prev, parsedAfterPrompt prev evs -> ~ In (Parsed None) evs.
Proof.
  induction evs as [|ev evs IH]; simpl; intros prev Hseq; [tauto|].
  intros [Heq|Hin].
  - subst ev. destruct Hseq as [(p & s & _ & Hx) _]. discriminate.
  - destruct ev as [p r|ln|x]; [| |destruct Hseq as [_ Hseq]];
      apply (IH _ Hseq Hin).
Qed.

(** The typed reads, each with its parsing strategy and domain label. *)
Lemma typedReads_readNumber rd :
  In rd typedReads ->
  exists parseFn errorMsgType,
    forall args, rd args =
      match args with
      | [str] => readNumber str parseFn errorMsgType
      | _ => rd []
      end.
Proof.
  intros [<-|[<-|[<-|[]]]].
  - exists booleanStrategy, "a boolean (true/false)".
    intros [|a [|b l]]; reflexivity.
  - exists integerStrategy, "an integer".
    intros [|a [|b l]]; reflexivity.
  - exists floatStrategy, "a float".
    intros [|a [|b l]]; reflexivity.
Qed.

(** ** The retry loop: exhaustion (C1, C5) *)

(** C1, as stated, fails on the code: against a gateway that answers
    ["abc"] to every request, [readInt] returns 0 after 102 requests to
    the gateway, not 101. *)
Lemma readInt_abc_makes_102_requests :
  fst (readInt ["Enter a number: "] (cannedWorld (Some "abc")))
    = Return (VNumber (JS.zero false))
  /\ gatewayCalls (trace (snd (readInt ["Enter a number: "] (cannedWorld (Some "abc"))))) = 102
  /\ gatewayCalls (trace (snd (readInt ["Enter a number: "] (cannedWorld (Some "abc"))))) <> 101.
Proof.
  repeat split; try (vm_compute; reflexivity).
  vm_compute. discriminate.
Qed.

(** C1, as amended: for a prompt gateway that returns an unparseable
    string on every invocation, [readInt] returns the default value 0
    after exactly 102 attempts (1 initial attempt plus 101 retries): the
    loop gives up when it finds [loopCount] above [INFINITE_LOOP_CHECK],
    which is 100, and [loopCount] starts at 0. The parsing strategy is
    applied 102 times as well. *)
Theorem readInt_exhausts_after_102_requests :
  forall (str : string) (w : World),
    alwaysInvalid integerStrategy (promptHandler (this w)) ->
    fst (readInt [str] w) = Return (VNumber (JS.zero false))
    /\ gatewayCalls (trace (snd (readInt [str] w))) = gatewayCalls (trace w) + 102
    /\ strategyCalls (trace (snd (readInt [str] w))) = strategyCalls (trace w) + 102.
Proof.
  intros str w Hinv. simpl readInt.
  apply (LoopRun_exhausts str integerStrategy "an integer" str 0 w); trivial.
  - apply readNumber_run.
  - apply Nat.le_0_l.
Qed.

Lemma readInt_exhausts_after_102_requests_witness :
  alwaysInvalid integerStrategy (promptHandler (this (cannedWorld (Some "abc"))))
  /\ fst (readInt ["n? "] (cannedWorld (Some "abc"))) = Return (VNumber (JS.zero false))
  /\ gatewayCalls (trace (snd (readInt ["n? "] (cannedWorld (Some "abc"))))) = 0 + 102
  /\ strategyCalls (trace (snd (readInt ["n? "] (cannedWorld (Some "abc"))))) = 0 + 102.
Proof.
  assert (H : alwaysInvalid integerStrategy
                (promptHandler (this (cannedWorld (Some "abc"))))).
  { intros history promptString. exists "abc". split; reflexivity. }
  split; [exact H|].
  exact (readInt_exhausts_after_102_requests "n? " (cannedWorld (Some "abc")) H).
Defined.

(** C5, as stated, fails on the code: against a gateway that answers
    ["maybe"] to every request, [readBoolean] returns the Number 0, which
    is not the boolean [false]. *)
Lemma readBoolean_maybe_returns_number_zero :
  fst (readBoolean ["Continue? "] (cannedWorld (Some "maybe")))
    = Return (VNumber (JS.zero false))
  /\ fst (readBoolean ["Continue? "] (cannedWorld (Some "maybe")))
    <> Return (VBool false).
Proof.
  split; [vm_compute; reflexivity | vm_compute; discriminate].
Qed.

(** C5, as amended: when [readBoolean] exhausts the retry ceiling (every
    gateway response is a non-cancelled string that the boolean strategy
    rejects), it returns the default [DEFAULT] that [readNumber] has for
    every domain, the Number 0, and not a boolean. *)
Theorem readBoolean_exhausted_returns_number_zero :
  forall (str : string) (w : World),
    alwaysInvalid booleanStrategy (promptHandler (this w)) ->
    fst (readBoolean [str] w) = Return (VNumber (JS.zero false))
    /\ forall b, fst (readBoolean [str] w) <> Return (VBool b).
Proof.
  intros str w Hinv. simpl readBoolean.
  destruct (LoopRun_exhausts str booleanStrategy "a boolean (true/false)" str 0 w
              _ (readNumber_run _ _ _ w) Hinv (Nat.le_0_l _)) as [Hres _].
  rewrite Hres. split; [reflexivity | intros b; discriminate].
Qed.

Lemma readBoolean_exhausted_returns_number_zero_witness :
  alwaysInvalid booleanStrategy (promptHandler (this (cannedWorld (Some "maybe"))))
  /\ fst (readBoolean ["ok? "] (cannedWorld (Some "maybe"))) = Return (VNumber (JS.zero false))
  /\ forall b, fst (readBoolean ["ok? "] (cannedWorld (Some "maybe"))) <> Return (VBool b).
Proof.
  assert (H : alwaysInvalid booleanStrategy
                (promptHandler (this (cannedWorld (Some "maybe"))))).
  { intros history promptString. exists "maybe". split; reflexivity. }
  split; [exact H|].
  exact (readBoolean_exhausted_returns_number_zero "ok? " (cannedWorld (Some "maybe")) H).
Defined.

(** ** The retry loop: cancellation (C2, C10) *)

(** C2: for every typed read and every prompt string, if the gateway
    returns the cancellation marker on the first call, the read returns
    [null] at once: the only event is the one request to the gateway, no
    parsing strategy is applied and no default is substituted. *)
Theorem typed_reads_cancel_at_once :
  forall (str : string) (w : World),
    promptHandler (this w) (trace w) str = None ->
    Forall (fun rd => rd [str] w = (Return VNull, logged (Prompted str None) w))
           typedReads.
Proof.
  intros str w Hnone.
  repeat constructor; simpl; unfold readNumber;
    rewrite readNumber_loop_step; cbv zeta; rewrite Hnone; reflexivity.
Qed.

Lemma typed_reads_cancel_at_once_witness :
  Forall (fun rd => rd ["Age? "] (cannedWorld None)
                    = (Return VNull, logged (Prompted "Age? " None) (cannedWorld None)))
         typedReads.
Proof.
  apply (typed_reads_cancel_at_once "Age? " (cannedWorld None)). reflexivity.
Defined.

(** C10: in every typed read, whatever the arguments and the world, each
    application of the parsing strategy is to a string, the one the
    gateway returned in the request just before: the test for the
    cancellation marker comes first. The strategy is therefore never
    applied to [null], and the branch of [readBoolean]'s strategy for
    [null] is never taken: whatever that branch returned, [readBoolean]
    would do the same. *)
Theorem strategy_applied_to_strings_only :
  Forall (fun rd => forall (args : list string) (w : World),
            exists evs,
              trace (snd (rd args w)) = trace w ++ evs
              /\ parsedAfterPrompt None evs
              /\ ~ In (Parsed None) evs)
         typedReads
  /\ forall (onNull : value) (str : string) (w : World),
       readNumber str
         (fun line => match line with
                      | None => onNull
                      | Some _ => booleanStrategy line
                      end)
         "a boolean (true/false)" w
       = readBoolean [str] w.
Proof.
  split.
  - apply Forall_forall. intros rd Hrd args w.
    destruct (typedReads_readNumber rd Hrd) as (parseFn & label & Hread).
    assert (Hnone : trace (snd (rd [] w)) = trace w).
    { destruct Hrd as [<-|[<-|[<-|[]]]]; reflexivity. }
    rewrite Hread. destruct args as [|str [|b l]].
    + exists []. rewrite Hnone, app_nil_r. simpl. auto.
    + destruct (LoopRun_frame _ _ _ _ _ _ _ (readNumber_run str parseFn label w))
        as (_ & _ & evs & Htr & Hseq & _).
      exists evs. repeat split; trivial.
      apply (parsedAfterPrompt_no_null evs None Hseq).
    + exists []. rewrite Hnone, app_nil_r. simpl. auto.
  - intros onNull str w. simpl readBoolean. unfold readNumber.
    apply readNumber_loop_ext with (k := attemptsLeft 0);
      [reflexivity | apply le_n].
Qed.

(** ** The parsing strategies (C6, C7, C8) *)

Lemma number_eq_not_nan x y :
  JS.number_eq x y = true -> JS.is_nan x = false /\ JS.is_nan y = false.
Proof.
  destruct x, y; simpl; auto; discriminate.
Qed.

(** C6: the integer strategy accepts a string exactly when its integer
    parse and its floating-point parse are both Numbers other than NaN
    and are equal as [==] has it; it then returns the integer parse, and
    NaN otherwise. ["3.5"] is rejected (3 against 3.5) and ["3.0"] is
    accepted as 3. *)
Theorem integerStrategy_accepts_iff_parses_agree :
  forall s : string,
    (isNaN (integerStrategy (Some s)) = false <->
       JS.is_nan (JS.parseInt s) = false
       /\ JS.is_nan (JS.parseFloat s) = false
       /\ JS.number_eq (JS.parseInt s) (JS.parseFloat s) = true)
    /\ (JS.number_eq (JS.parseInt s) (JS.parseFloat s) = true ->
        integerStrategy (Some s) = VNumber (JS.parseInt s))
    /\ (JS.number_eq (JS.parseInt s) (JS.parseFloat s) = false ->
        integerStrategy (Some s) = VNumber JS.NaN)
    /\ integerStrategy (Some "3.5") = VNumber JS.NaN
    /\ integerStrategy (Some "3.0") = VNumber (int 3).
Proof.
  intros s. unfold integerStrategy. cbn [toString].
  destruct (JS.number_eq (JS.parseInt s) (JS.parseFloat s)) eqn:Heq.
  - destruct (number_eq_not_nan _ _ Heq) as [Hi Hf].
    repeat split; trivial; discriminate.
  - repeat split; trivial; try discriminate.
    intros (_ & _ & H). discriminate.
Qed.

Lemma integerStrategy_accepts_iff_parses_agree_witness :
  integerStrategy (Some "42") = VNumber (JS.parseInt "42").
Proof.
  apply (proj1 (proj2 (integerStrategy_accepts_iff_parses_agree "42"))).
  reflexivity.
Defined.

Lemma toLowerChar_is_letter a b :
  JS.inRange 97 122 a = true ->
  Ascii.eqb (JS.toLowerChar b) a = Ascii.eqb b a || Ascii.eqb b (upperCaseOf a).
Proof.
  destruct a as [[] [] [] [] [] [] [] []]; intros Ha;
    try discriminate Ha; clear Ha;
    destruct b as [[] [] [] [] [] [] [] []]; reflexivity.
Qed.

Lemma toLowerCase_is_word word :
  lowerCaseLetters word = true ->
  forall s, String.eqb (JS.toLowerCase s) word = isCasingOf word s.
Proof.
  induction word as [|a word IH]; intros Hw [|b s]; simpl; trivial.
  simpl in Hw. apply andb_prop in Hw as [Ha Hw].
  rewrite (toLowerChar_is_letter a b Ha), (IH Hw s).
  destruct (Ascii.eqb b a || Ascii.eqb b (upperCaseOf a)); reflexivity.
Qed.

(** C8: the boolean strategy is decided by the words true, yes, false
    and no in any casing: a casing of true or yes gives [true], a casing
    of false or no gives [false], and every other string is invalid
    (NaN), among them ["maybe"], ["1"] and ["0"]. *)
Theorem booleanStrategy_synonyms_any_casing :
  (forall s : string,
     booleanStrategy (Some s) =
       if isCasingOf "true" s || isCasingOf "yes" s then VBool true
       else if isCasingOf "false" s || isCasingOf "no" s then VBool false
       else VNumber JS.NaN)
  /\ Forall (fun s => booleanStrategy (Some s) = VBool true)
            ["true"; "TRUE"; "yes"; "YES"; "True"; "tRuE"; "Yes"; "yEs"]
  /\ Forall (fun s => booleanStrategy (Some s) = VBool false)
            ["false"; "FALSE"; "no"; "NO"; "False"; "No"; "nO"]
  /\ Forall (fun s => booleanStrategy (Some s) = VNumber JS.NaN)
            ["maybe"; "1"; "0"; ""; "t"; "y"; "n"; "f"; " true"; "yes "; "truee"].
Proof.
  split.
  - intros s. unfold booleanStrategy.
    rewrite <- !toLowerCase_is_word by reflexivity. reflexivity.
  - repeat split; repeat constructor.
Qed.

(** *** Rounding an integer never gives NaN *)

Lemma iter_pos_invariant {A : Type} (P : A -> Prop) (f : A -> A) :
  (forall x, P x -> P (f x)) ->
  forall p x, P x -> P (iter_pos f p x).
Proof.
  intros Hf. induction p as [p IH|p IH|]; simpl; intros x Hx; auto.
Qed.

Lemma shr_1_nonneg mrs : (0 <= shr_m mrs)%Z -> (0 <= shr_m (shr_1 mrs))%Z.
Proof.
  destruct mrs as [m r s]. destruct m as [|[p|p|]|[p|p|]]; simpl; lia.
Qed.

Lemma shr_fexp_nonneg m e l :
  (0 <= m)%Z -> (0 <= shr_m (fst (shr_fexp JS.prec JS.emax m e l)))%Z.
Proof.
  intros Hm. unfold shr_fexp, shr.
  assert (H0 : (0 <= shr_m (shr_record_of_loc m l))%Z).
  { destruct l as [|[]]; simpl; exact Hm. }
  destruct (fexp JS.prec JS.emax (Zdigits2 m + e) - e)%Z; simpl; trivial.
  apply (iter_pos_invariant (fun mrs => (0 <= shr_m mrs)%Z)); trivial.
  apply shr_1_nonneg.
Qed.

Lemma round_nearest_even_nonneg m l :
  (0 <= m)%Z -> (0 <= round_nearest_even m l)%Z.
Proof.
  intros Hm. destruct l as [|[]]; simpl; try destruct (Z.even m); lia.
Qed.

Lemma binary_round_aux_not_nan sx m e l :
  (0 <= m)%Z -> JS.is_nan (binary_round_aux JS.prec JS.emax sx m e l) = false.
Proof.
  intros Hm. unfold binary_round_aux.
  pose proof (shr_fexp_nonneg m e l Hm) as H1.
  destruct (shr_fexp JS.prec JS.emax m e l) as [mrs' e']. simpl in H1.
  pose proof (shr_fexp_nonneg _ e' loc_Exact
                (round_nearest_even_nonneg _ (loc_of_shr_record mrs') H1)) as H2.
  destruct (shr_fexp JS.prec JS.emax _ e' loc_Exact) as [mrs'' e'']. simpl in H2.
  destruct (shr_m mrs'') as [|p|p]; simpl; trivial.
  - destruct (e'' <=? _)%Z; reflexivity.
  - lia.
Qed.


Lemma number_eq_refl x : JS.is_nan x = false -> JS.number_eq x x = true.
Proof.
  unfold JS.number_eq, SFeqb.
  destruct x as [s|s| |s m e]; simpl; try discriminate; intros _.
  - reflexivity.
  - destruct s; reflexivity.
  - rewrite Z.compare_refl, Pos.compare_cont_refl. destruct s; reflexivity.
Qed.

(** *** Numerals followed by other text *)

Lemma radixDigit_decimal c :
  JS.radixDigit 10 c = if isDecimalDigit c then Some (JS.code c - 48)%N else None.
Proof.
  destruct c as [[] [] [] [] [] [] [] []]; reflexivity.
Qed.

Lemma decimal_digit_is_plain c :
  isDecimalDigit c = true ->
  JS.isStrWhiteSpaceChar c = false
  /\ Ascii.eqb c "-" = false /\ Ascii.eqb c "+" = false
  /\ Ascii.eqb "I" c = false
  /\ Ascii.eqb c "x" = false /\ Ascii.eqb c "X" = false.
Proof.
  destruct c as [[] [] [] [] [] [] [] []]; intros H; try discriminate H;
    repeat split; reflexivity.
Qed.

Lemma spanDigits_numeral ds t :
  allDecimalDigits ds = true ->
  match t with String c _ => isDecimalDigit c = false | EmptyString => True end ->
  JS.spanDigits 10 (ds ++ t)%string =
    (map (fun c => JS.code c - 48)%N (list_ascii_of_string ds), t).
Proof.
  intros Hds Ht. induction ds as [|c ds IH]; simpl.
  - destruct t as [|c r]; simpl; trivial.
    rewrite radixDigit_decimal, Ht. reflexivity.
  - simpl in Hds. apply andb_prop in Hds as [Hc Hds].
    rewrite radixDigit_decimal, Hc, (IH Hds). reflexivity.
Qed.

Lemma digitsValue_decimal ds :
  JS.digitsValue 10 (map (fun c => JS.code c - 48)%N (list_ascii_of_string ds))
  = decimalValue ds.
Proof.
  unfold JS.digitsValue, decimalValue.
  generalize 0%N. induction (list_ascii_of_string ds) as [|c l IH]; simpl; auto.
Qed.


Section NumeralPrefix.

Variables (ds t : string).
Hypothesis numeral : isDecimalNumeral ds = true.
Hypothesis other : continuesNumeral t = false.

Lemma after_numeral :
  match t with
  | String c _ =>
      isDecimalDigit c = false /\ Ascii.eqb c "." = false
      /\ (Ascii.eqb c "e" || Ascii.eqb c "E") = false
      /\ (Ascii.eqb c "x" || Ascii.eqb c "X") = false
  | EmptyString => True
  end.
Proof.
  destruct t as [|c r]; trivial. simpl in other.
  repeat (apply orb_false_elim in other as [other ?]).
  repeat split; trivial. all: repeat (apply orb_false_intro); trivial.
Qed.

Lemma spanDigits_after_numeral :
  JS.spanDigits 10 (ds ++ t)%string =
    (map (fun c => JS.code c - 48)%N (list_ascii_of_string ds), t).
Proof.
  apply spanDigits_numeral.
  - destruct ds; [discriminate numeral | exact numeral].
  - pose proof after_numeral as H. destruct t; tauto.
Qed.



End NumeralPrefix.




(** ** The output buffer and the arity checks (C3, C4, C9) *)

Lemma split_never_empty sep s : JS.split sep s <> [].
Proof.
  destruct s as [|c r]; simpl; [discriminate|].
  destruct (Ascii.eqb c sep); [discriminate|].
  destruct (JS.split sep r); discriminate.
Qed.

(** [bufferedOutputToArray] always returns: the array it splits into has
    a last element. *)
Lemma bufferedOutputToArray_returns s :
  exists lines, bufferedOutputToArray s = Return lines.
Proof.
  unfold bufferedOutputToArray.
  pose proof (split_never_empty nl s) as Hne.
  destruct (nth_error (JS.split nl s) (length (JS.split nl s) - 1)) as [final|] eqn:Hnth.
  - destruct (String.length final =? 0); eauto.
  - apply nth_error_None in Hnth.
    destruct (JS.split nl s); [congruence | simpl in Hnth; lia].
Qed.

(** [print] stores its argument as one captured line, so after
    [print("a\nb\n")] what [flushQuietOutput] returns when its helper
    resolves is the one line ["a\nb\n"], not ["a"] and ["b"]; in the
    scope of the module alone the call does not return at all. *)
Lemma print_then_flush_is_not_split :
  fst ((print [a_nl_b_nl] ;;; flushQuietOutput) resolvedWorld) = Return [a_nl_b_nl]
  /\ fst ((print [a_nl_b_nl] ;;; flushQuietOutput) resolvedWorld) <> Return ["a"; "b"]
  /\ fst ((print [a_nl_b] ;;; flushQuietOutput) resolvedWorld) <> Return ["a"; "b"]
  /\ fst ((print [a_nl_b_nl] ;;; flushQuietOutput) moduleWorld) <> Return ["a"; "b"].
Proof.
  repeat split; try reflexivity; vm_compute; discriminate.
Qed.

(** [print(s)] appends [s] as one line to the captured lines, without
    splitting it and without touching the pending fragment, and hands
    [s] to the live-display sink. Splitting on newlines is for the
    pending fragment, which [quietPrint] writes: ["a\nb\n"] and ["a\nb"]
    both split into ["a"] and ["b"]. Under the condition that the helper
    it calls resolves and returns, [flushQuietOutput] returns the
    captured lines followed by the lines of the fragment, and leaves
    both empty. *)
Theorem print_captures_whole_and_flush_splits_fragment :
  (forall (s : string) (w : World),
     print [s] w =
       (Return tt,
        logged (Printed s)
          (withOutput w (internalOutput (this w) ++ [s])
                        (internalOutputBuffer (this w)))))
  /\ bufferedOutputToArray a_nl_b_nl = Return ["a"; "b"]
  /\ bufferedOutputToArray a_nl_b = Return ["a"; "b"]
  /\ (forall (w : World) f lines,
        scope_bufferedOutputToArray w = Some f ->
        f (internalOutputBuffer (this w)) = Return lines ->
        flushQuietOutput w =
          (Return (internalOutput (this w) ++ lines), withOutput w [] ""))
  /\ fst ((print [a_nl_b_nl] ;;; flushQuietOutput) resolvedWorld) = Return [a_nl_b_nl]
  /\ fst ((quietPrint a_nl_b_nl ;;; flushQuietOutput) resolvedWorld) = Return ["a"; "b"]
  /\ fst ((quietPrint a_nl_b ;;; flushQuietOutput) resolvedWorld) = Return ["a"; "b"].
Proof.
  repeat split; try reflexivity.
  intros w f lines Hf Hlines.
  unfold flushQuietOutput, bind, getThis, set_internalOutputBuffer,
    set_internalOutput, setThis, bind, getThis, ret, withOutput.
  destruct w as [[out buf g] sc tr]. simpl in *. subst sc.
  destruct (falsy buf) eqn:Hbuf; simpl.
  - apply String.eqb_eq in Hbuf. subst buf. rewrite Hlines. reflexivity.
  - rewrite Hlines. reflexivity.
Qed.

Lemma print_captures_whole_and_flush_splits_fragment_witness :
  flushQuietOutput (withOutput resolvedWorld ["x"] a_nl_b) =
    (Return (["x"] ++ ["a"; "b"]), withOutput (withOutput resolvedWorld ["x"] a_nl_b) [] "").
Proof.
  apply (proj1 (proj2 (proj2 (proj2 print_captures_whole_and_flush_splits_fragment)))
           (withOutput resolvedWorld ["x"] a_nl_b) bufferedOutputToArray ["a"; "b"]);
    reflexivity.
Defined.

(** C3, on the code: the claim's flush does not return. Line 72 calls
    [bufferedOutputToArray] without [this.], and the module binds no such
    name, so in the scope of the module a flush after [print("a\nb\n")],
    after [print("a\nb")], or after any [print] or [quietPrint], raises a
    ReferenceError: no line sequence is returned, the printed string
    stays in the captured lines and the buffers are not reset. *)
Theorem print_then_flush_raises_in_module_scope :
  forall (s : string) (w : World),
    scope_bufferedOutputToArray w = None ->
    (print [s] ;;; flushQuietOutput) w =
      (Throw (ReferenceError "bufferedOutputToArray is not defined"),
       logged (Printed s)
         (withOutput w (internalOutput (this w) ++ [s])
                       (internalOutputBuffer (this w))))
    /\ (quietPrint s ;;; flushQuietOutput) w =
      (Throw (ReferenceError "bufferedOutputToArray is not defined"),
       withOutput w (internalOutput (this w))
                    (internalOutputBuffer (this w) ++ s)%string).
Proof.
  intros s [[out buf g] sc tr] Hsc. simpl in Hsc. subst sc.
  unfold withOutput, logged. simpl. split.
  - unfold bind, print, flushQuietOutput, bind, getThis, set_internalOutput,
      set_internalOutputBuffer, bind, getThis, setThis, emit, ret. simpl.
    destruct (falsy buf) eqn:Hbuf; simpl; trivial.
    apply String.eqb_eq in Hbuf. subst buf. reflexivity.
  - unfold bind, quietPrint, flushQuietOutput, bind, getThis,
      set_internalOutputBuffer, bind, getThis, setThis, ret. simpl.
    destruct (falsy buf) eqn:Hbuf; simpl.
    + apply String.eqb_eq in Hbuf. subst buf. simpl.
      destruct (falsy s) eqn:Hs; simpl; trivial.
      apply String.eqb_eq in Hs. subst s. reflexivity.
    + destruct (falsy (buf ++ s)) eqn:Hs; simpl; trivial.
      apply String.eqb_eq in Hs. rewrite Hs. reflexivity.
Qed.

Lemma print_then_flush_raises_in_module_scope_witness :
  (print [a_nl_b_nl] ;;; flushQuietOutput) moduleWorld =
    (Throw (ReferenceError "bufferedOutputToArray is not defined"),
     logged (Printed a_nl_b_nl)
       (withOutput moduleWorld (internalOutput (this moduleWorld) ++ [a_nl_b_nl])
                               (internalOutputBuffer (this moduleWorld))))
  /\ (quietPrint a_nl_b_nl ;;; flushQuietOutput) moduleWorld =
    (Throw (ReferenceError "bufferedOutputToArray is not defined"),
     withOutput moduleWorld (internalOutput (this moduleWorld))
                            (internalOutputBuffer (this moduleWorld) ++ a_nl_b_nl)%string).
Proof.
  apply (print_then_flush_raises_in_module_scope a_nl_b_nl moduleWorld).
  reflexivity.
Defined.

Lemma longer_trace_changes_world w w' ev :
  trace w' = trace w ++ [ev] -> w' <> w.
Proof.
  intros Htr H. subst w'. apply (f_equal (@length event)) in Htr.
  rewrite length_app in Htr. simpl in Htr. lia.
Qed.

(** C4, on the code: with one argument [println(line)] is
    [print(line + "\n")], and with two arguments or more it raises; but
    with no argument it returns without printing anything: nothing is
    captured and the sink is not invoked, where [print("\n")] would
    capture a line and invoke the sink. *)
Theorem println_without_argument_prints_nothing :
  (forall (line : string) (w : World),
     println [line] w = print [(line ++ newline)%string] w)
  /\ (forall (a b : string) (rest : list string) (w : World),
        println (a :: b :: rest) w =
          (Throw (Error "You should pass exactly 1 argument to println"), w))
  /\ (forall w : World, println [] w = (Return tt, w))
  /\ (forall w : World, println [] w <> print [newline] w).
Proof.
  repeat split.
  intros w H. injection H as H. symmetry in H. revert H.
  apply longer_trace_changes_world with (ev := Printed newline). reflexivity.
Qed.

(** C9: every public function that takes the prompt or the line as its
    one argument raises when it is called with a wrong number of
    arguments, and does so before anything else: the instance (captured
    lines, pending fragment) and the trace (no request to the gateway, no
    line to the sink) are as before. A wrong number is any other than one
    for [print], [readLine], [readBoolean], [readInt] and [readFloat],
    and two or more for [println], whose form without argument is part
    of its contract. In particular [print()] and [print("x", "y")]
    raise. *)
Theorem wrong_arity_raises_before_any_effect :
  forall (args : list string) (w : World),
    length args <> 1 ->
    print args w =
      (Throw (Error "You should pass exactly 1 argument to print"), w)
    /\ readLine args w =
      (Throw (Error "You should pass exactly 1 argument to readLine"), w)
    /\ readBoolean args w =
      (Throw (Error "You should pass exactly 1 argument to readBoolean"), w)
    /\ readInt args w =
      (Throw (Error "You should pass exactly 1 argument to readInt"), w)
    /\ readFloat args w =
      (Throw (Error "You should pass exactly 1 argument to readFloat"), w)
    /\ (length args <> 0 ->
        println args w =
          (Throw (Error "You should pass exactly 1 argument to println"), w)).
Proof.
  intros [|a [|b rest]] w Hlen; simpl in Hlen; try lia; repeat split.
  intros H. contradiction.
Qed.

Lemma wrong_arity_raises_before_any_effect_witness :
  print [] resolvedWorld =
    (Throw (Error "You should pass exactly 1 argument to print"), resolvedWorld)
  /\ print ["x"; "y"] resolvedWorld =
    (Throw (Error "You should pass exactly 1 argument to print"), resolvedWorld)
  /\ println ["x"; "y"] resolvedWorld =
    (Throw (Error "You should pass exactly 1 argument to println"), resolvedWorld).
Proof.
  assert (H0 : length (@nil string) <> 1) by (simpl; lia).
  assert (H2 : length ["x"; "y"] <> 1) by (simpl; lia).
  assert (H2' : length ["x"; "y"] <> 0) by (simpl; lia).
  pose proof (wrong_arity_raises_before_any_effect [] resolvedWorld H0) as P0.
  pose proof (wrong_arity_raises_before_any_effect ["x"; "y"] resolvedWorld H2) as P2.
  split; [exact (proj1 P0)|].
  split; [exact (proj1 P2)|].
  exact (proj2 (proj2 (proj2 (proj2 (proj2 P2)))) H2').
Defined.

(** ** Further properties of the code *)

(** A run of the loop returns a value: it never raises. *)
Lemma LoopRun_returns str parseFn errorMsgType prompt loopCount w out :
  LoopRun str parseFn errorMsgType prompt loopCount w out ->
  exists v, fst out = Return v.
Proof.
  induction 1; simpl; eauto.
Qed.

(** Every typed read given one argument returns a value, never raising,
    with the instance and the scope as they were, after at least one and
    at most 102 requests to the gateway; the parsing strategy is applied
    at most once per request: each application is to a string, and comes
    right after the request that returned that string. *)
Theorem typed_reads_return_within_102_requests :
  Forall (fun rd => forall (str : string) (w : World),
            (exists v, fst (rd [str] w) = Return v)
            /\ this (snd (rd [str] w)) = this w
            /\ scope_bufferedOutputToArray (snd (rd [str] w))
               = scope_bufferedOutputToArray w
            /\ exists evs,
                 trace (snd (rd [str] w)) = trace w ++ evs
                 /\ 1 <= gatewayCalls evs <= 102
                 /\ strategyCalls evs <= gatewayCalls evs
                 /\ parsedAfterPrompt None evs)
         typedReads.
Proof.
  apply Forall_forall. intros rd Hrd str w.
  destruct (typedReads_readNumber rd Hrd) as (parseFn & label & Hread).
  rewrite Hread.
  pose proof (readNumber_run str parseFn label w) as Hrun.
  destruct (LoopRun_returns _ _ _ _ _ _ _ Hrun) as [v Hv].
  destruct (LoopRun_frame _ _ _ _ _ _ _ Hrun)
    as (Hthis & Hscope & evs & Htr & Hseq & Hcalls & Hpar).
  split; [exists v; exact Hv|].
  repeat split; trivial. exists evs. repeat split; trivial; apply Hcalls.
Qed.

(** In the scope of the module alone, where nothing is bound to the
    identifier [bufferedOutputToArray], [flushQuietOutput] raises a
    ReferenceError and returns no line, whatever was captured. *)
Theorem flushQuietOutput_raises_in_module_scope :
  forall w : World,
    scope_bufferedOutputToArray w = None ->
    fst (flushQuietOutput w)
      = Throw (ReferenceError "bufferedOutputToArray is not defined").
Proof.
  intros [[out buf g] sc tr] Hsc. simpl in Hsc. subst sc.
  unfold flushQuietOutput, bind, getThis. simpl.
  destruct (falsy buf); reflexivity.
Qed.

Lemma flushQuietOutput_raises_in_module_scope_witness :
  fst (flushQuietOutput moduleWorld)
    = Throw (ReferenceError "bufferedOutputToArray is not defined").
Proof.
  apply (flushQuietOutput_raises_in_module_scope moduleWorld). reflexivity.
Defined.

(** [clear()] followed by a flush whose helper resolves to the method of
    the class yields no line, whatever was captured or buffered. *)
Theorem clear_then_flush_is_empty :
  forall w : World,
    scope_bufferedOutputToArray w = Some bufferedOutputToArray ->
    fst ((clear ;;; flushQuietOutput) w) = Return [].
Proof.
  intros [[out buf g] sc tr] Hsc. simpl in Hsc. subst sc. reflexivity.
Qed.

Lemma clear_then_flush_is_empty_witness :
  fst ((clear ;;; flushQuietOutput) (withOutput resolvedWorld ["x"; "y"] "z"))
    = Return [].
Proof.
  apply (clear_then_flush_is_empty (withOutput resolvedWorld ["x"; "y"] "z")).
  reflexivity.
Defined.

(** ** Splitting the pending fragment into lines *)

Lemma append_assoc (a b c : string) :
  ((a ++ b) ++ c = a ++ (b ++ c))%string.
Proof.
  induction a as [|d r IH]; simpl; [reflexivity | rewrite IH; reflexivity].
Qed.

Lemma append_empty_r (a : string) : (a ++ "" = a)%string.
Proof.
  induction a as [|d r IH]; simpl; [reflexivity | rewrite IH; reflexivity].
Qed.

Lemma split_concat sep s :
  String.concat (String sep EmptyString) (JS.split sep s) = s.
Proof.
  induction s as [|c r IH]; simpl; trivial.
  pose proof (split_never_empty sep r) as Hne.
  destruct (Ascii.eqb_spec c sep) as [->|Hc].
  - simpl. destruct (JS.split sep r) as [|h t]; [congruence|].
    rewrite IH. reflexivity.
  - destruct (JS.split sep r) as [|h t]; [congruence|].
    simpl in *. destruct t; rewrite <- IH; reflexivity.
Qed.

Lemma split_lacks sep s :
  Forall (fun l => lacks sep l = true) (JS.split sep s).
Proof.
  induction s as [|c r IH]; simpl.
  - repeat constructor.
  - destruct (Ascii.eqb c sep) eqn:Hc.
    + constructor; trivial.
    + destruct (JS.split sep r) as [|h t]; inversion IH; subst;
        constructor; simpl; trivial; rewrite Hc; simpl; trivial.
Qed.

(** Splitting distributes over a separator: the parts before it, then
    the parts after it. *)
Lemma split_app sep a b :
  JS.split sep (a ++ String sep b)%string = JS.split sep a ++ JS.split sep b.
Proof.
  induction a as [|c r IH]; simpl.
  - rewrite Ascii.eqb_refl. reflexivity.
  - destruct (Ascii.eqb c sep); rewrite IH; trivial.
    pose proof (split_never_empty sep r) as Hne.
    destruct (JS.split sep r); [congruence | reflexivity].
Qed.

Lemma concat_snoc sep init x :
  init <> [] ->
  String.concat sep (init ++ [x]) = (String.concat sep init ++ sep ++ x)%string.
Proof.
  induction init as [|a [|b rest] IH]; intros Hne; [congruence| |].
  - reflexivity.
  - change (String.concat sep ((a :: b :: rest) ++ [x]))
      with (a ++ sep ++ String.concat sep ((b :: rest) ++ [x]))%string.
    rewrite IH by discriminate.
    change (String.concat sep (a :: b :: rest))
      with (a ++ sep ++ String.concat sep (b :: rest))%string.
    rewrite !append_assoc. reflexivity.
Qed.

Lemma endsWith_app c a b :
  b <> EmptyString -> endsWith c (a ++ b)%string = endsWith c b.
Proof.
  intros Hb. induction a as [|d r IH]; simpl; trivial.
  destruct (r ++ b)%string eqn:Hrb; [|exact IH].
  destruct r; simpl in Hrb; congruence.
Qed.

Lemma lacks_endsWith c s : lacks c s = true -> endsWith c s = false.
Proof.
  induction s as [|d r IH]; simpl; trivial.
  intros H. apply andb_prop in H as [Hd Hr].
  destruct r; [|auto]. destruct (Ascii.eqb d c); [discriminate | reflexivity].
Qed.

Lemma last_of_snoc {A} (l : list A) (x : A) :
  nth_error (l ++ [x]) (length (l ++ [x]) - 1) = Some x
  /\ JS.slice_0_m1 (l ++ [x]) = l.
Proof.
  split.
  - rewrite length_app. simpl. replace (length l + 1 - 1) with (length l) by lia.
    rewrite nth_error_app2 by lia. rewrite Nat.sub_diag. reflexivity.
  - apply removelast_last.
Qed.

(** [bufferedOutputToArray] never raises, its lines hold no newline, and
    it loses nothing but one final newline: the lines joined by newlines,
    with a newline added back when the text ended with one, are the text
    itself. The empty text, and no other, gives no line at all. *)
Theorem bufferedOutputToArray_round_trip :
  forall s : string,
    exists lines,
      bufferedOutputToArray s = Return lines
      /\ (String.concat newline lines
          ++ (if endsWith nl s then newline else ""))%string = s
      /\ Forall (fun l => lacks nl l = true) lines
      /\ (lines = [] <-> s = "").
Proof.
  intros s. unfold bufferedOutputToArray.
  pose proof (split_concat nl s) as Hjoin.
  pose proof (split_lacks nl s) as Hlacks.
  destruct (exists_last (split_never_empty nl s)) as (init & final & Hparts).
  assert (Hempty : s = "" -> init = [] /\ final = "").
  { intros ->. simpl in Hparts.
    apply (app_inj_tail [] init EmptyString final) in Hparts as [<- <-].
    split; reflexivity. }
  rewrite Hparts in Hjoin, Hlacks. rewrite Hparts.
  destruct (last_of_snoc init final) as [Hnth Hslice]. rewrite Hnth.
  apply Forall_app in Hlacks as [Hinit Hfinal].
  destruct final as [|c r]; simpl String.length; cbn [Nat.eqb].
  - exists init. rewrite Hslice.
    destruct init as [|a init'].
    + simpl in Hjoin. subst s. repeat split; trivial.
    + split; [reflexivity|]. split; [|split; [exact Hinit|]].
      * rewrite concat_snoc in Hjoin by discriminate.
        rewrite <- Hjoin at 1.
        rewrite endsWith_app by discriminate.
        change (endsWith nl (String nl "" ++ "")) with true. cbv iota.
        exact Hjoin.
      * split; [discriminate|].
        intros Hs. destruct (Hempty Hs) as [Hinit' _]. discriminate Hinit'.
  - exists (init ++ [String c r]).
    split; [reflexivity|]. split; [|split].
    + assert (Hend : endsWith nl s = false).
      { pose proof (Forall_inv Hfinal) as Hcr. simpl in Hcr.
        destruct init as [|a init'].
        - simpl in Hjoin. subst s. apply lacks_endsWith. exact Hcr.
        - rewrite concat_snoc in Hjoin by discriminate. rewrite <- Hjoin.
          rewrite endsWith_app by discriminate.
          change (endsWith nl (String c r) = false).
          apply lacks_endsWith. exact Hcr. }
      rewrite Hend, append_empty_r. exact Hjoin.
    + apply Forall_app. split; trivial.
    + split.
      * intros Hnil. destruct init; discriminate Hnil.
      * intros Hs. destruct (Hempty Hs) as [_ Hfinal']. discriminate Hfinal'.
Qed.

(** A text ended by a newline gives exactly the lines of the text before
    that newline: one final empty element is dropped and no more, so
    blank lines, also at the end, are kept. *)
Theorem bufferedOutputToArray_terminated :
  forall s : string,
    bufferedOutputToArray (s ++ newline)%string = Return (JS.split nl s).
Proof.
  intros s. unfold bufferedOutputToArray, newline.
  rewrite split_app. simpl (JS.split nl EmptyString).
  destruct (last_of_snoc (JS.split nl s) EmptyString) as [-> ->].
  reflexivity.
Qed.

(** ** How the output calls compose *)

Lemma quietPrint_effect text w :
  quietPrint text w =
    (Return tt, withOutput w (internalOutput (this w))
                           (internalOutputBuffer (this w) ++ text)%string).
Proof.
  destruct w as [[out buf g] sc tr].
  unfold quietPrint, bind, getThis, set_internalOutputBuffer, bind, getThis,
    setThis, ret, withOutput. simpl.
  destruct (falsy buf) eqn:Hbuf; simpl; trivial.
  apply String.eqb_eq in Hbuf. subst buf. reflexivity.
Qed.

Lemma call_effect c w :
  call c w =
    (Return tt,
     mkWorld (mkConsole (internalOutput (this w) ++ printedBy c)
                        (internalOutputBuffer (this w) ++ bufferedBy c)%string
                        (promptHandler (this w)))
             (scope_bufferedOutputToArray w)
             (trace w ++ map Printed (printedBy c))).
Proof.
  destruct c as [ln|ln|text|anything]; simpl call; simpl printedBy;
    simpl bufferedBy; unfold quietPrintln; rewrite ?quietPrint_effect;
    destruct w as [[out buf g] sc tr]; unfold withOutput; simpl;
    rewrite ?append_empty_r, ?app_nil_r; reflexivity.
Qed.

Lemma callAll_effect :
  forall (cs : list outputCall) (w : World),
    callAll cs w =
      (Return tt,
       mkWorld (mkConsole
                  (internalOutput (this w) ++ flat_map printedBy cs)
                  (internalOutputBuffer (this w)
                   ++ fold_right (fun c acc => bufferedBy c ++ acc) "" cs)%string
                  (promptHandler (this w)))
               (scope_bufferedOutputToArray w)
               (trace w ++ map Printed (flat_map printedBy cs))).
Proof.
  induction cs as [|c cs IH]; intros w.
  - destruct w as [[out buf g] sc tr]. simpl.
    rewrite append_empty_r, !app_nil_r. reflexivity.
  - cbn [callAll]. unfold bind at 1. rewrite call_effect, IH. simpl.
    rewrite map_app, <- !app_assoc, append_assoc. reflexivity.
Qed.


(** Whatever the order of the calls, [print] and [println] add their
    strings, whole and in order, to the captured lines and hand them to
    the sink, [quietPrint] and [quietPrintln] add theirs, in order, to
    the pending fragment, and neither kind touches what the other
    writes; no call reaches the gateway. *)
Theorem output_calls_compose :
  forall (cs : list outputCall) (w : World),
    callAll cs w =
      (Return tt,
       mkWorld (mkConsole
                  (internalOutput (this w) ++ flat_map printedBy cs)
                  (internalOutputBuffer (this w)
                   ++ fold_right (fun c acc => bufferedBy c ++ acc) "" cs)%string
                  (promptHandler (this w)))
               (scope_bufferedOutputToArray w)
               (trace w ++ map Printed (flat_map printedBy cs)))
    /\ gatewayCalls (trace (snd (callAll cs w))) = gatewayCalls (trace w).
Proof.
  intros cs w. rewrite callAll_effect. split; [reflexivity|].
  simpl. rewrite gatewayCalls_app.
  induction (flat_map printedBy cs) as [|ln lns IH]; simpl; lia.
Qed.

Lemma callAll_then_flush cs w lines :
  scope_bufferedOutputToArray w = Some bufferedOutputToArray ->
  bufferedOutputToArray
    (internalOutputBuffer (this w)
     ++ fold_right (fun c acc => bufferedBy c ++ acc) "" cs)%string
    = Return lines ->
  (callAll cs ;;; flushQuietOutput) w =
    (Return (internalOutput (this w) ++ flat_map printedBy cs ++ lines),
     mkWorld (mkConsole [] "" (promptHandler (this w)))
             (scope_bufferedOutputToArray w)
             (trace w ++ map Printed (flat_map printedBy cs))).
Proof.
  intros Hsc Hlines.
  unfold bind at 1. rewrite callAll_effect.
  destruct w as [[out buf g] sc tr]. simpl in *. subst sc.
  unfold flushQuietOutput, bind, getThis, set_internalOutputBuffer,
    set_internalOutput, setThis, bind, getThis, ret. simpl.
  match goal with |- context [falsy ?b] => destruct (falsy b) eqn:Hb end; simpl.
  - apply String.eqb_eq in Hb. rewrite Hb in Hlines.
    injection Hlines as <-. rewrite <- app_assoc. reflexivity.
  - rewrite Hlines. rewrite <- app_assoc. reflexivity.
Qed.

(** After any sequence of output calls, a flush whose helper resolves to
    the method of the class returns the lines captured before, then every
    string given to [print] or [println], then the lines of the fragment:
    what was printed comes before what was quietly printed, whatever the
    order of the calls. Both buffers are empty afterwards. *)
Theorem flush_returns_printed_before_quiet :
  forall (cs : list outputCall) (w : World),
    scope_bufferedOutputToArray w = Some bufferedOutputToArray ->
    exists lines,
      bufferedOutputToArray
        (internalOutputBuffer (this w)
         ++ fold_right (fun c acc => bufferedBy c ++ acc) "" cs)%string
        = Return lines
      /\ (callAll cs ;;; flushQuietOutput) w =
           (Return (internalOutput (this w) ++ flat_map printedBy cs ++ lines),
            mkWorld (mkConsole [] "" (promptHandler (this w)))
                    (scope_bufferedOutputToArray w)
                    (trace w ++ map Printed (flat_map printedBy cs))).
Proof.
  intros cs w Hsc.
  destruct (bufferedOutputToArray_returns
              (internalOutputBuffer (this w)
               ++ fold_right (fun c acc => bufferedBy c ++ acc) "" cs)%string)
    as [lines Hlines].
  exists lines. split; [exact Hlines|].
  apply callAll_then_flush; assumption.
Qed.

Lemma flush_returns_printed_before_quiet_witness :
  exists lines,
    bufferedOutputToArray
      (internalOutputBuffer (this resolvedWorld)
       ++ fold_right (fun c acc => bufferedBy c ++ acc) ""
            [CallQuietPrintln "q"; CallPrint "p"; CallQuietPrint "r"])%string
      = Return lines
    /\ (callAll [CallQuietPrintln "q"; CallPrint "p"; CallQuietPrint "r"]
        ;;; flushQuietOutput) resolvedWorld =
         (Return (internalOutput (this resolvedWorld)
                  ++ flat_map printedBy
                       [CallQuietPrintln "q"; CallPrint "p"; CallQuietPrint "r"]
                  ++ lines),
          mkWorld (mkConsole [] "" (promptHandler (this resolvedWorld)))
                  (scope_bufferedOutputToArray resolvedWorld)
                  (trace resolvedWorld
                   ++ map Printed
                        (flat_map printedBy
                           [CallQuietPrintln "q"; CallPrint "p"; CallQuietPrint "r"]))).
Proof.
  apply (flush_returns_printed_before_quiet
           [CallQuietPrintln "q"; CallPrint "p"; CallQuietPrint "r"] resolvedWorld).
  reflexivity.
Defined.

Lemma split_line l : lacks nl l = true -> JS.split nl l = [l].
Proof.
  induction l as [|c r IH]; simpl; trivial.
  intros H. apply andb_prop in H as [Hc Hr].
  destruct (Ascii.eqb c nl); [discriminate|]. rewrite (IH Hr). reflexivity.
Qed.

Lemma split_terminated_lines ls :
  JS.split nl (fold_right (fun c acc => bufferedBy c ++ acc)%string ""
                 (map CallQuietPrintln ls))
  = flat_map (JS.split nl) ls ++ [EmptyString].
Proof.
  induction ls as [|l ls IH]; simpl; trivial.
  unfold newline. rewrite append_assoc. simpl append.
  rewrite split_app, IH, app_assoc. reflexivity.
Qed.

Lemma flat_map_split_lines ls :
  Forall (fun l => lacks nl l = true) ls -> flat_map (JS.split nl) ls = ls.
Proof.
  induction 1 as [|l ls Hl _ IH]; simpl; trivial.
  rewrite (split_line l Hl), IH. reflexivity.
Qed.

(** Lines written with [quietPrintln] come back from a flush: from an
    empty pending fragment, with the helper of the flush resolved to the
    method of the class, the flush returns the lines captured before and
    then the lines written, each split at the newlines it holds; lines
    that hold no newline come back one for one, the empty ones too. *)
Theorem quietPrintln_lines_come_back :
  forall (ls : list string) (w : World),
    scope_bufferedOutputToArray w = Some bufferedOutputToArray ->
    internalOutputBuffer (this w) = "" ->
    fst ((callAll (map CallQuietPrintln ls) ;;; flushQuietOutput) w)
      = Return (internalOutput (this w) ++ flat_map (JS.split nl) ls)
    /\ (Forall (fun l => lacks nl l = true) ls ->
        fst ((callAll (map CallQuietPrintln ls) ;;; flushQuietOutput) w)
          = Return (internalOutput (this w) ++ ls)).
Proof.
  intros ls w Hsc Hbuf.
  assert (Hflush :
    fst ((callAll (map CallQuietPrintln ls) ;;; flushQuietOutput) w)
      = Return (internalOutput (this w) ++ flat_map (JS.split nl) ls)).
  { rewrite (callAll_then_flush _ w (flat_map (JS.split nl) ls) Hsc).
    - simpl. replace (flat_map printedBy (map CallQuietPrintln ls))
        with (@nil string); [reflexivity|].
      induction ls as [|l ls IH]; simpl; trivial.
    - rewrite Hbuf. simpl append. unfold bufferedOutputToArray.
      rewrite split_terminated_lines.
      destruct (last_of_snoc (flat_map (JS.split nl) ls) EmptyString) as [-> ->].
      reflexivity. }
  split; [exact Hflush|].
  intros Hls. rewrite Hflush, (flat_map_split_lines ls Hls). reflexivity.
Qed.

Lemma quietPrintln_lines_come_back_witness :
  fst ((callAll (map CallQuietPrintln ["one"; ""; "three"]) ;;; flushQuietOutput)
         (withOutput resolvedWorld ["zero"] ""))
    = Return (["zero"] ++ ["one"; ""; "three"]).
Proof.
  apply (quietPrintln_lines_come_back ["one"; ""; "three"]
           (withOutput resolvedWorld ["zero"] "")); try reflexivity.
  repeat constructor.
Defined.

(** A flush that raises loses nothing: when the identifier of line 72
    resolves to nothing, or to a function that raises, the flush raises
    and the captured lines and the pending fragment are as before. *)
Theorem failed_flush_keeps_output :
  forall w : World,
    (scope_bufferedOutputToArray w = None
     \/ exists f e, scope_bufferedOutputToArray w = Some f
                    /\ f (internalOutputBuffer (this w)) = Throw e) ->
    exists e, flushQuietOutput w = (Throw e, w).
Proof.
  intros [[out buf g] sc tr] H. simpl in H.
  unfold flushQuietOutput, bind, getThis, set_internalOutputBuffer, bind,
    getThis, setThis, ret. simpl.
  destruct H as [->|(f & e & -> & Hf)].
  - eexists. destruct (falsy buf) eqn:Hb; simpl; trivial.
    apply String.eqb_eq in Hb. subst buf. reflexivity.
  - exists e. destruct (falsy buf) eqn:Hb; simpl.
    + apply String.eqb_eq in Hb. subst buf. rewrite Hf. reflexivity.
    + rewrite Hf. reflexivity.
Qed.

Lemma failed_flush_keeps_output_witness :
  exists e, flushQuietOutput (withOutput moduleWorld ["kept"] "pending")
            = (Throw e, withOutput moduleWorld ["kept"] "pending").
Proof.
  apply (failed_flush_keeps_output (withOutput moduleWorld ["kept"] "pending")).
  left. reflexivity.
Defined.

(** ** The shape of a typed read *)

Lemma prompts_app evs1 evs2 : prompts (evs1 ++ evs2) = prompts evs1 ++ prompts evs2.
Proof.
  induction evs1 as [|[p r|ln|x] evs1 IH]; simpl; auto. rewrite IH. reflexivity.
Qed.

Section ReadShape.

Variables (str : string) (parseFn : ParseFn) (errorMsgType : string).

Local Abbreviation Run := (LoopRun str parseFn errorMsgType).

(** A run is a sequence of rounds with rejected strings, ended by a
    cancelled request, by an accepted string, or by nothing when the
    counter has run out. *)
Lemma LoopRun_outcome prompt loopCount w out :
  Run prompt loopCount w out ->
  loopCount <= S INFINITE_LOOP_CHECK ->
  exists rounds final,
    trace (snd out) = trace w ++ rounds ++ final
    /\ invalidRounds parseFn rounds
    /\ ((exists p, final = [Prompted p None] /\ fst out = Return VNull)
        \/ (exists p s,
              final = [Prompted p (Some s); Parsed (Some s)]
              /\ isNaN (parseFn (Some s)) = false
              /\ fst out = Return (parseFn (Some s)))
        \/ (final = []
            /\ gatewayCalls rounds = S (attemptsLeft loopCount)
            /\ fst out = Return DEFAULT)).
Proof.
  induction 1 as [prompt n w Hg | prompt n w line Hg Hnan
                 | prompt n w line Hg Hnan Hlt
                 | prompt n w line out Hg Hnan Hle Hrun IH];
    intros Hn; simpl.
  - exists [], [Prompted prompt None]. simpl. eauto 6.
  - exists [], [Prompted prompt (Some line); Parsed (Some line)].
    rewrite <- app_assoc. simpl. split; [reflexivity|]. split; [exact I|].
    right. left. eauto.
  - exists [Prompted prompt (Some line); Parsed (Some line)], [].
    rewrite <- app_assoc. simpl. repeat split; trivial.
    right. right. unfold attemptsLeft, INFINITE_LOOP_CHECK in *.
    repeat split; trivial. lia.
  - destruct IH as (rounds & final & Htr & Hrounds & Hend).
    { unfold INFINITE_LOOP_CHECK in *. lia. }
    exists (Prompted prompt (Some line) :: Parsed (Some line) :: rounds), final.
    simpl in Htr. rewrite Htr, <- !app_assoc. simpl.
    repeat split; trivial.
    destruct Hend as [Hend|[Hend|(Hfinal & Hcalls & Hres)]]; auto.
    right. right. unfold attemptsLeft, INFINITE_LOOP_CHECK in *.
    repeat split; trivial. lia.
Qed.

(** The first request carries the prompt of the iteration, every later
    one the error notice followed by the original prompt. *)
Lemma LoopRun_prompts prompt loopCount w out :
  Run prompt loopCount w out ->
  exists evs k,
    trace (snd out) = trace w ++ evs
    /\ prompts evs = prompt :: repeat (retryPrompt errorMsgType str) k
    /\ k <= attemptsLeft loopCount.
Proof.
  induction 1 as [prompt n w Hg | prompt n w line Hg Hnan
                 | prompt n w line Hg Hnan Hlt
                 | prompt n w line out Hg Hnan Hle Hrun IH]; simpl.
  - exists [Prompted prompt None], 0. simpl. repeat split; trivial. lia.
  - exists [Prompted prompt (Some line); Parsed (Some line)], 0.
    rewrite <- app_assoc. simpl. repeat split; trivial. lia.
  - exists [Prompted prompt (Some line); Parsed (Some line)], 0.
    rewrite <- app_assoc. simpl. repeat split; trivial. lia.
  - destruct IH as (evs & k & Htr & Hprompts & Hk).
    exists (Prompted prompt (Some line) :: Parsed (Some line) :: evs), (S k).
    simpl in Htr. rewrite Htr, <- !app_assoc. simpl. rewrite Hprompts.
    unfold attemptsLeft, INFINITE_LOOP_CHECK in *. repeat split; trivial. lia.
Qed.

End ReadShape.

(** A typed read stops at the first response that is not a rejected
    string. Its trace is a sequence of rounds, each a request answered
    by a string that the strategy rejects, followed by one of: a
    request answered by the cancellation marker, and the result is
    [null]; a request answered by a string that the strategy accepts,
    and the result is the value the strategy gave; nothing, after 102
    rounds, and the result is the default 0. *)
Theorem typed_read_stops_at_first_answer :
  Forall (fun '(rd, parseFn, errorMsgType) =>
            forall (str : string) (w : World),
            exists rounds final,
              trace (snd (rd [str] w)) = trace w ++ rounds ++ final
              /\ invalidRounds parseFn rounds
              /\ ((exists p, final = [Prompted p None]
                             /\ fst (rd [str] w) = Return VNull)
                  \/ (exists p s,
                        final = [Prompted p (Some s); Parsed (Some s)]
                        /\ isNaN (parseFn (Some s)) = false
                        /\ fst (rd [str] w) = Return (parseFn (Some s)))
                  \/ (final = []
                      /\ gatewayCalls rounds = 102
                      /\ fst (rd [str] w) = Return DEFAULT)))
         typedReadsWith.
Proof.
  unfold typedReadsWith.
  repeat (apply Forall_cons; [intros str w; cbv beta iota|]); [| | |apply Forall_nil].
  - exact (LoopRun_outcome str booleanStrategy _ str 0 w _
             (readNumber_run str _ "a boolean (true/false)" w) (Nat.le_0_l _)).
  - exact (LoopRun_outcome str integerStrategy _ str 0 w _
             (readNumber_run str _ "an integer" w) (Nat.le_0_l _)).
  - exact (LoopRun_outcome str floatStrategy _ str 0 w _
             (readNumber_run str _ "a float" w) (Nat.le_0_l _)).
Qed.

(** The first request of a typed read shows the prompt as given; every
    later request shows the same text: the error notice with the label
    of the domain, followed by the prompt as given. The notices do not
    pile up, and there are at most 101 of them. *)
Theorem typed_read_prompt_texts :
  Forall (fun '(rd, parseFn, errorMsgType) =>
            forall (str : string) (w : World),
            exists evs k,
              trace (snd (rd [str] w)) = trace w ++ evs
              /\ prompts evs =
                   str :: repeat ("That was not " ++ errorMsgType
                                  ++ ". Please try again. " ++ str)%string k
              /\ k <= 101)
         typedReadsWith.
Proof.
  unfold typedReadsWith.
  repeat (apply Forall_cons; [intros str w; cbv beta iota|]); [| | |apply Forall_nil].
  - exact (LoopRun_prompts str booleanStrategy _ str 0 w _
             (readNumber_run str _ "a boolean (true/false)" w)).
  - exact (LoopRun_prompts str integerStrategy _ str 0 w _
             (readNumber_run str _ "an integer" w)).
  - exact (LoopRun_prompts str floatStrategy _ str 0 w _
             (readNumber_run str _ "a float" w)).
Qed.

Lemma booleanStrategy_cases x :
  booleanStrategy x = VBool true \/ booleanStrategy x = VBool false
  \/ booleanStrategy x = VNumber JS.NaN.
Proof.
  destruct x as [s|]; unfold booleanStrategy; auto.
  destruct (_ || _); auto. destruct (_ || _); auto.
Qed.

(** A typed read called with one argument never raises and never returns
    NaN: [readBoolean] returns [null], [true], [false] or the number 0,
    and [readInt] and [readFloat] return [null] or a number other than
    NaN. *)
Theorem typed_reads_never_return_NaN :
  forall (str : string) (w : World),
    (exists v, fst (readBoolean [str] w) = Return v
               /\ (v = VNull \/ v = VBool true \/ v = VBool false
                   \/ v = VNumber (JS.zero false)))
    /\ (exists v, fst (readInt [str] w) = Return v
                  /\ (v = VNull \/ exists n, v = VNumber n /\ JS.is_nan n = false))
    /\ (exists v, fst (readFloat [str] w) = Return v
                  /\ (v = VNull \/ exists n, v = VNumber n /\ JS.is_nan n = false)).
Proof.
  intros str w. split; [|split].
  - destruct (LoopRun_outcome str booleanStrategy _ str 0 w _
                (readNumber_run str _ "a boolean (true/false)" w) (Nat.le_0_l _))
      as (rounds & final & _ & _ & [(p & _ & Hres)|[(p & s & _ & Hnan & Hres)|(_ & _ & Hres)]]);
      simpl readBoolean; rewrite Hres; eexists; split; try reflexivity; auto.
    destruct (booleanStrategy_cases (Some s)) as [->|[->|Hbad]]; auto.
    rewrite Hbad in Hnan. discriminate.
  - destruct (LoopRun_outcome str integerStrategy _ str 0 w _
                (readNumber_run str _ "an integer" w) (Nat.le_0_l _))
      as (rounds & final & _ & _ & [(p & _ & Hres)|[(p & s & _ & Hnan & Hres)|(_ & _ & Hres)]]);
      simpl readInt; rewrite Hres; eexists; split; try reflexivity; auto.
    + right. unfold integerStrategy in *.
      destruct (JS.number_eq _ _); eauto.
    + right. eexists. split; reflexivity.
  - destruct (LoopRun_outcome str floatStrategy _ str 0 w _
                (readNumber_run str _ "a float" w) (Nat.le_0_l _))
      as (rounds & final & _ & _ & [(p & _ & Hres)|[(p & s & _ & Hnan & Hres)|(_ & _ & Hres)]]);
      simpl readFloat; rewrite Hres; eexists; split; try reflexivity; auto.
    + right. unfold floatStrategy in *. eauto.
    + right. eexists. split; reflexivity.
Qed.

(** ** Blank responses *)

Lemma trimStart_blank s : allWhiteSpace s = true -> JS.trimStart s = EmptyString.
Proof.
  induction s as [|c r IH]; simpl; trivial.
  intros H. apply andb_prop in H as [Hc Hr]. rewrite Hc. auto.
Qed.

Lemma white_space_is_no_letter c :
  JS.isStrWhiteSpaceChar c = true ->
  Ascii.eqb (JS.toLowerChar c) "t" = false
  /\ Ascii.eqb (JS.toLowerChar c) "y" = false
  /\ Ascii.eqb (JS.toLowerChar c) "f" = false
  /\ Ascii.eqb (JS.toLowerChar c) "n" = false.
Proof.
  destruct c as [[] [] [] [] [] [] [] []]; intros H; try discriminate H;
    repeat split; reflexivity.
Qed.

Lemma blank_is_invalid s :
  allWhiteSpace s = true ->
  isNaN (booleanStrategy (Some s)) = true
  /\ isNaN (integerStrategy (Some s)) = true
  /\ isNaN (floatStrategy (Some s)) = true.
Proof.
  intros Hs. split; [|split].
  - destruct s as [|c r]; [reflexivity|].
    simpl in Hs. apply andb_prop in Hs as [Hc _].
    destruct (white_space_is_no_letter c Hc) as (Ht & Hy & Hf & Hn).
    unfold booleanStrategy. cbn [JS.toLowerCase String.eqb].
    rewrite Ht, Hy, Hf, Hn. reflexivity.
  - unfold integerStrategy, JS.parseInt, JS.parseFloat. cbn [toString].
    rewrite (trimStart_blank s Hs). reflexivity.
  - unfold floatStrategy, JS.parseFloat. cbn [toString].
    rewrite (trimStart_blank s Hs). reflexivity.
Qed.

Lemma readNumber_after_invalid str parseFn errorMsgType w s :
  promptHandler (this w) (trace w) str = Some s ->
  isNaN (parseFn (Some s)) = true ->
  readNumber str parseFn errorMsgType w =
    readNumber_loop str parseFn errorMsgType (retryPrompt errorMsgType str) true 1
      (logged (Parsed (Some s)) (logged (Prompted str (Some s)) w)).
Proof.
  intros Hg Hnan. unfold readNumber. rewrite readNumber_loop_step at 1.
  cbv zeta. rewrite Hg, Hnan, (isNaN_not_null _ Hnan). reflexivity.
Qed.

(** An empty response, or one of white space only, is not a
    cancellation and is not a value: each of the three strategies rejects
    it, so a typed read that gets one as its first response asks again
    with the error notice, where [readLine] returns the string as it
    is. *)
Theorem blank_response_is_asked_again :
  forall (str s : string) (w : World),
    promptHandler (this w) (trace w) str = Some s ->
    allWhiteSpace s = true ->
    Forall (fun '(rd, parseFn, errorMsgType) =>
              isNaN (parseFn (Some s)) = true
              /\ exists evs,
                   trace (snd (rd [str] w)) =
                     trace w ++ Prompted str (Some s) :: Parsed (Some s) :: evs
                   /\ prompts evs <> []
                   /\ hd str (prompts evs) = retryPrompt errorMsgType str)
           typedReadsWith
    /\ fst (readLine [str] w) = Return (Some s).
Proof.
  intros str s w Hg Hs.
  destruct (blank_is_invalid s Hs) as (Hb & Hi & Hf).
  assert (Hshape : forall parseFn errorMsgType,
    isNaN (parseFn (Some s)) = true ->
    exists evs,
      trace (snd (readNumber str parseFn errorMsgType w)) =
        trace w ++ Prompted str (Some s) :: Parsed (Some s) :: evs
      /\ prompts evs <> []
      /\ hd str (prompts evs) = retryPrompt errorMsgType str).
  { intros parseFn errorMsgType Hnan.
    rewrite (readNumber_after_invalid str parseFn errorMsgType w s Hg Hnan).
    destruct (LoopRun_prompts str parseFn errorMsgType _ 1 _ _
                (readNumber_loop_run str parseFn errorMsgType (attemptsLeft 1) 1
                   (le_n _) (retryPrompt errorMsgType str) true
                   (logged (Parsed (Some s)) (logged (Prompted str (Some s)) w))))
      as (evs & k & Htr & Hprompts & _).
    exists evs. rewrite Htr. simpl. rewrite <- !app_assoc. simpl.
    rewrite Hprompts. repeat split; trivial. discriminate. }
  split.
  - unfold typedReadsWith.
    repeat (apply Forall_cons; [cbv beta iota; split|]);
      try apply Forall_nil; trivial; apply Hshape; trivial.
  - simpl. unfold readLinePrivate, bind, emit, ret. rewrite Hg. reflexivity.
Qed.

Lemma blank_response_is_asked_again_witness :
  Forall (fun '(rd, parseFn, errorMsgType) =>
            isNaN (parseFn (Some "  ")) = true
            /\ exists evs,
                 trace (snd (rd ["Age? "] (cannedWorld (Some "  ")))) =
                   trace (cannedWorld (Some "  "))
                   ++ Prompted "Age? " (Some "  ") :: Parsed (Some "  ") :: evs
                 /\ prompts evs <> []
                 /\ hd "Age? " (prompts evs) = retryPrompt errorMsgType "Age? ")
         typedReadsWith
  /\ fst (readLine ["Age? "] (cannedWorld (Some "  "))) = Return (Some "  ").
Proof.
  apply (blank_response_is_asked_again "Age? " "  " (cannedWorld (Some "  ")));
    reflexivity.
Defined.

(** ** Signed numerals after white space *)

Lemma ofInteger_is_a_number neg n : JS.is_nan (JS.ofInteger neg n) = false.
Proof.
  unfold JS.ofInteger, binary_normalize.
  destruct n as [|p]; destruct neg; simpl Z.of_N; simpl Z.opp; trivial;
    unfold binary_round; destruct (shl_align p 0 _) as [mz ez];
    apply binary_round_aux_not_nan; lia.
Qed.

Lemma ofDecimal_integer neg n : JS.ofDecimal neg n 0 = JS.ofInteger neg n.
Proof.
  destruct n as [|p]; [destruct neg; reflexivity|].
  unfold JS.ofDecimal. simpl Z.leb. cbv iota.
  change (Z.to_N 0) with 0%N. rewrite N.pow_0_r, N.mul_1_r. reflexivity.
Qed.

Lemma trimStart_after_blank ws x :
  allWhiteSpace ws = true -> JS.trimStart (ws ++ x)%string = JS.trimStart x.
Proof.
  induction ws as [|c r IH]; simpl; trivial.
  intros H. apply andb_prop in H as [Hc Hr]. rewrite Hc. auto.
Qed.

Lemma isSign_cases sg : isSign sg = true -> sg = "" \/ sg = "+" \/ sg = "-".
Proof.
  unfold isSign. intros H.
  apply orb_prop in H as [H|H]; [apply orb_prop in H as [H|H]|];
    apply String.eqb_eq in H; auto.
Qed.

Section SignedNumeral.

Variables (ds t : string).
Hypothesis numeral : isDecimalNumeral ds = true.
Hypothesis other : continuesNumeral t = false.

Lemma stripSign_numeral :
  JS.stripSign (JS.trimStart (ds ++ t)%string) = (false, (ds ++ t)%string).
Proof.
  destruct ds as [|c ds']; [discriminate numeral|].
  simpl in numeral. apply andb_prop in numeral as [Hc _].
  destruct (decimal_digit_is_plain c Hc) as (Hws & Hminus & Hplus & _).
  simpl append. simpl JS.trimStart. rewrite Hws.
  unfold JS.stripSign. rewrite Hminus, Hplus. reflexivity.
Qed.

Lemma stripPrefix_numeral :
  JS.stripPrefix (ds ++ t)%string = (10%N, (ds ++ t)%string).
Proof.
  pose proof (after_numeral t other) as Ht.
  destruct ds as [|c [|d ds2]]; [discriminate numeral| |];
    unfold JS.stripPrefix; simpl append.
  - destruct t as [|c1 r]; trivial.
    destruct Ht as (_ & _ & _ & Hc1). rewrite Hc1, andb_false_r. reflexivity.
  - simpl in numeral. apply andb_prop in numeral as [_ Hd].
    apply andb_prop in Hd as [Hd _].
    destruct (decimal_digit_is_plain d Hd) as (_ & _ & _ & _ & Hdx & HdX).
    rewrite Hdx, HdX, andb_false_r. reflexivity.
Qed.

Lemma numeral_digits :
  exists d rest,
    JS.spanDigits 10 (ds ++ t)%string = (d :: rest, t)
    /\ JS.digitsValue 10 (d :: rest) = decimalValue ds.
Proof.
  pose proof (spanDigits_after_numeral ds t numeral other) as Hspan.
  pose proof (digitsValue_decimal ds) as Hval.
  destruct ds as [|c ds']; [discriminate numeral|].
  simpl list_ascii_of_string in *. simpl map in *. eauto.
Qed.

Lemma numeral_is_not_Infinity : JS.isPrefixOf "Infinity" (ds ++ t)%string = false.
Proof.
  destruct ds as [|c ds']; [discriminate numeral|].
  simpl in numeral. apply andb_prop in numeral as [Hc _].
  destruct (decimal_digit_is_plain c Hc) as (_ & _ & _ & HI & _).
  simpl append. cbn [JS.isPrefixOf]. rewrite HI. reflexivity.
Qed.

Lemma numeral_tail :
  JS.fractionPart t = ([], t) /\ JS.exponentPart t = 0%Z.
Proof.
  pose proof (after_numeral t other) as Ht.
  destruct t as [|c1 r]; [split; reflexivity|].
  destruct Ht as (_ & Hdot & He & _). simpl. rewrite Hdot, He. split; reflexivity.
Qed.

Lemma parse_signed_numeral ws sg :
  allWhiteSpace ws = true ->
  isSign sg = true ->
  JS.parseInt (ws ++ sg ++ ds ++ t)%string
    = JS.ofInteger (String.eqb sg "-") (decimalValue ds)
  /\ JS.parseFloat (ws ++ sg ++ ds ++ t)%string
    = JS.ofInteger (String.eqb sg "-") (decimalValue ds).
Proof.
  intros Hws Hsg.
  destruct numeral_digits as (d & rest & Hspan & Hval).
  destruct numeral_tail as [Hfrac Hexp].
  assert (Hsign : JS.stripSign (JS.trimStart (ws ++ sg ++ ds ++ t)%string)
                  = (String.eqb sg "-", (ds ++ t)%string)).
  { rewrite (trimStart_after_blank ws _ Hws).
    destruct (isSign_cases sg Hsg) as [-> | [-> | ->]].
    - exact stripSign_numeral.
    - reflexivity.
    - reflexivity. }
  unfold JS.parseInt, JS.parseFloat. rewrite Hsign.
  rewrite stripPrefix_numeral, numeral_is_not_Infinity, Hspan, Hfrac, Hexp.
  rewrite app_nil_r, Hval. simpl length. simpl Z.of_nat. simpl Z.sub.
  split; [reflexivity | apply ofDecimal_integer].
Qed.

End SignedNumeral.

(** The integer and the float strategy accept a decimal numeral written
    after any white space and an optional sign, whatever follows it that
    does not start with a digit, a point, [e], [E], [x] or [X] (trailing
    white space, a unit): the value is the integer of the numeral,
    negative after a minus sign, and is never NaN. *)
Theorem signed_numeral_is_accepted :
  forall ws sg ds t : string,
    allWhiteSpace ws = true ->
    isSign sg = true ->
    isDecimalNumeral ds = true ->
    continuesNumeral t = false ->
    integerStrategy (Some (ws ++ sg ++ ds ++ t)%string)
      = VNumber (JS.ofInteger (String.eqb sg "-") (decimalValue ds))
    /\ floatStrategy (Some (ws ++ sg ++ ds ++ t)%string)
      = VNumber (JS.ofInteger (String.eqb sg "-") (decimalValue ds))
    /\ JS.is_nan (JS.ofInteger (String.eqb sg "-") (decimalValue ds)) = false.
Proof.
  intros ws sg ds t Hws Hsg Hds Ht.
  destruct (parse_signed_numeral ds t Hds Ht ws sg Hws Hsg) as [Hint Hfloat].
  pose proof (ofInteger_is_a_number (String.eqb sg "-") (decimalValue ds)) as Hnan.
  unfold integerStrategy, floatStrategy. cbn [toString].
  rewrite Hint, Hfloat, (number_eq_refl _ Hnan). auto.
Qed.

Lemma signed_numeral_is_accepted_witness :
  integerStrategy (Some ("  " ++ "-" ++ "42" ++ " years")%string)
    = VNumber (JS.ofInteger (String.eqb "-" "-") (decimalValue "42"))
  /\ floatStrategy (Some ("  " ++ "-" ++ "42" ++ " years")%string)
    = VNumber (JS.ofInteger (String.eqb "-" "-") (decimalValue "42"))
  /\ JS.is_nan (JS.ofInteger (String.eqb "-" "-") (decimalValue "42")) = false.
Proof.
  apply (signed_numeral_is_accepted "  " "-" "42" " years"); reflexivity.
Defined.

(** ** The boolean strategy does not trim *)

Lemma letter_is_no_white_space a b :
  JS.inRange 97 122 a = true ->
  Ascii.eqb b a || Ascii.eqb b (upperCaseOf a) = true ->
  JS.isStrWhiteSpaceChar b = false.
Proof.
  destruct a as [[] [] [] [] [] [] [] []]; intros Ha;
    try discriminate Ha; clear Ha;
    destruct b as [[] [] [] [] [] [] [] []]; intros Hb;
    try discriminate Hb; reflexivity.
Qed.

Lemma casing_has_no_white_space word :
  lowerCaseLetters word = true ->
  forall s, isCasingOf word s = true -> hasWhiteSpace s = false.
Proof.
  induction word as [|a word IH]; intros Hw [|b s] Hs; simpl in *;
    try discriminate; trivial.
  apply andb_prop in Hw as [Ha Hw]. apply andb_prop in Hs as [Hb Hs].
  rewrite (letter_is_no_white_space a b Ha Hb), (IH Hw s Hs). reflexivity.
Qed.

(** The boolean strategy takes the response as it is, without trimming:
    a response that holds white space anywhere, before or after a word
    as in [" true"] or ["yes "], is rejected, where the numeric
    strategies skip leading white space. *)
Theorem booleanStrategy_rejects_white_space :
  forall s : string,
    hasWhiteSpace s = true ->
    booleanStrategy (Some s) = VNumber JS.NaN.
Proof.
  intros s Hs. unfold booleanStrategy.
  rewrite !toLowerCase_is_word by reflexivity.
  assert (Hno : forall word, lowerCaseLetters word = true ->
                             isCasingOf word s = false).
  { intros word Hw. destruct (isCasingOf word s) eqn:Hc; trivial.
    rewrite (casing_has_no_white_space word Hw s Hc) in Hs. discriminate. }
  rewrite !Hno by reflexivity. reflexivity.
Qed.

Lemma booleanStrategy_rejects_white_space_witness :
  booleanStrategy (Some " true") = VNumber JS.NaN
  /\ booleanStrategy (Some "yes ") = VNumber JS.NaN.
Proof.
  split; apply booleanStrategy_rejects_white_space; reflexivity.
Defined.
